(** * SlimeVR USB-UDP bridge (tools/slimevr_bridge.py): frame decoder,
    protocol encoder, tracker bookkeeping and run loop, embedded as
    executable definitions, with the properties the design document
    states about them.

    How the Python is read:
    - [bytes] are lists of [byte]; Python ints are [Z], unbounded;
      Python floats are binary64 numbers ([spec_float] at precision 53),
      and [struct.pack('<f', _)] rounds them to binary32;
    - a call returns the object as it leaves it together with its value
      or the exception it raises, so that what was assigned before a
      raise stays assigned;
    - what the bridge does to the outside is kept in the bridge: the
      datagrams handed to the socket, the lines written to sys.stderr,
      the calls made on the HID device;
    - the clock is an input: each pass through the main loop comes with
      the value [time.time()] would return, an exact rational;
    - a run is a [schedule], the passes of the main loop and the rounds
      of the heartbeat thread in the order they happen, up to the
      keyboard interrupt. Where it matters that a builder is not atomic,
      the encoder is run on a finer schedule ([interleave]). *)

From Stdlib Require Import ZArith QArith Lia Lqa List Strings.Byte SpecFloat.
From stdpp Require Import base option list gmap.
Import ListNotations.

#[local] Open Scope Z_scope.
#[local] Set Warnings "-clear-no-such-hyp".

(** ** Python values used by the bridge *)

(** The exceptions the embedded code can raise. *)
Inductive exn : Type :=
| StructError     (* struct.error: wrong buffer size, integer out of range *)
| ValueError      (* bytearray item not in range(256) *)
| OverflowError   (* float too large to pack with f format *)
| IndexError.     (* index out of range *)

(** Result of a call that does not touch object state. *)
Inductive result (A : Type) : Type :=
| Ok (a : A)
| Raise (e : exn).
Arguments Ok {A} a.
Arguments Raise {A} e.

Definition rbind {A B} (r : result A) (k : A -> result B) : result B :=
  match r with
  | Ok a => k a
  | Raise e => Raise e
  end.

Declare Scope py_scope.
Delimit Scope py_scope with py.
Notation "'let*' x ':=' r 'in' k" := (rbind r (fun x => k))
  (at level 10, x name, r at level 100, k at level 200) : py_scope.
#[local] Open Scope py_scope.

(** A Python [float] is an IEEE 754 binary64 number. *)
Module PyFloat.
Definition prec : Z := 53.
Definition emax : Z := 1024.
Definition float : Type := spec_float.

(** [float(z)] for an integer [z], correctly rounded. *)
Definition of_Z (z : Z) : float := binary_normalize prec emax z 0 false.
Definition div (x y : float) : float := SFdiv prec emax x y.
Definition mul (x y : float) : float := SFmul prec emax x y.
Definition add (x y : float) : float := SFadd prec emax x y.

(** Decimal literals of the source: the double nearest to [n / 10]. *)
Definition tenths (n : Z) : float := div (of_Z n) (of_Z 10).
End PyFloat.

Abbreviation float := PyFloat.float.

(** ** The [struct] module, for the format strings the bridge uses *)

Definition byte_of_Z (z : Z) : byte :=
  match Byte.of_N (Z.to_N (z mod 256)) with
  | Some b => b
  | None => x00
  end.

Definition Z_of_byte (b : byte) : Z := Z.of_N (Byte.to_N b).

(** [n] little-endian bytes of [v], least significant first. *)
Fixpoint le_bytes (n : nat) (v : Z) : list byte :=
  match n with
  | O => []
  | S n' => byte_of_Z (Z.land v 255) :: le_bytes n' (Z.shiftr v 8)
  end.

(** Little-endian value of a byte string. *)
Fixpoint le_value (bs : list byte) : Z :=
  match bs with
  | [] => 0
  | b :: bs' => Z.lor (Z_of_byte b) (Z.shiftl (le_value bs') 8)
  end.

(** [struct.pack('<I', v)]: struct.error unless [0 <= v < 2^32]. *)
Definition pack_I (v : Z) : result (list byte) :=
  if (0 <=? v) && (v <? 2 ^ 32) then Ok (le_bytes 4 v) else Raise StructError.

(** [struct.pack('<Q', v)]: struct.error unless [0 <= v < 2^64]. *)
Definition pack_Q (v : Z) : result (list byte) :=
  if (0 <=? v) && (v <? 2 ^ 64) then Ok (le_bytes 8 v) else Raise StructError.

(** [struct.unpack('<H', bs)[0]]: struct.error unless [bs] has 2 bytes. *)
Definition unpack_H (bs : list byte) : result Z :=
  if Nat.eqb (length bs) 2 then Ok (le_value bs) else Raise StructError.

(** [struct.unpack('<h', bs)[0]]: the same two bytes read as two's
    complement. *)
Definition unpack_h (bs : list byte) : result Z :=
  let* u := unpack_H bs in
  Ok (if u <? 2 ^ 15 then u else u - 2 ^ 16).

(** [data[lo:hi]] for non-negative bounds; a slice never raises. *)
Definition slice {A} (lo hi : nat) (l : list A) : list A :=
  firstn (hi - lo)%nat (skipn lo l).

(** [data[i]] *)
Definition index {A} (l : list A) (i : nat) : result A :=
  match nth_error l i with
  | Some a => Ok a
  | None => Raise IndexError
  end.

(** ** Frame decoder *)

(** The dictionaries [parse_rf_ultra_packet] returns: the 'type' entry
    selects the variant, the other entries are its fields. *)
Inductive reading : Type :=
| Rotation (tracker_id : Z) (quaternion : list float) (accel_z : float)
           (battery : Z)
| DeviceInfo (tracker_id : Z)
| Status (tracker_id : Z).

(** [data['tracker_id']] *)
Definition tracker_id (r : reading) : Z :=
  match r with
  | Rotation t _ _ _ => t
  | DeviceInfo t => t
  | Status t => t
  end.

(** [data['type'] == 'rotation'] *)
Definition is_rotation (r : reading) : bool :=
  match r with
  | Rotation _ _ _ _ => true
  | _ => false
  end.

(** [(header >> 6) & 0x03] *)
Definition pkt_type_of (header : Z) : Z := Z.land (Z.shiftr header 6) 3.

(** [header & 0x3F] *)
Definition tracker_id_of (header : Z) : Z := Z.land header 63.

(** [struct.unpack('<h', bytes(data[lo:hi]))[0] / 32768.0] *)
Definition q15 (data : list byte) (lo hi : nat) : result float :=
  let* raw := unpack_h (slice lo hi data) in
  Ok (PyFloat.div (PyFloat.of_Z raw) (PyFloat.of_Z 32768)).

(** The sign extension of the 12-bit accelerometer field. *)
Definition accel_z_raw_of (aux : Z) : Z :=
  let accel_z_raw := Z.land aux 4095 in
  if accel_z_raw >? 2047 then accel_z_raw - 4096 else accel_z_raw.

(** [code * 100 // 15]: the 4-bit battery code as a percentage. *)
Definition battery_pct (code : Z) : Z := code * 100 / 15.

(** [((aux >> 12) & 0x0F)] *)
Definition battery_code_of (aux : Z) : Z := Z.land (Z.shiftr aux 12) 15.

Definition parse_rf_ultra_packet (data : list byte)
  : result (option reading) :=
  if (length data <? 12)%nat then Ok None else
  let* header := index data 0 in
  let header := Z_of_byte header in
  let pkt_type := pkt_type_of header in
  let tracker_id := tracker_id_of header in
  if pkt_type =? 0 then
    let* qw := q15 data 1 3 in
    let* qx := q15 data 3 5 in
    let* qy := q15 data 5 7 in
    let* qz := q15 data 7 9 in
    let* aux := unpack_H (slice 9 11 data) in
    let accel_z :=
      PyFloat.div (PyFloat.of_Z (accel_z_raw_of aux)) (PyFloat.of_Z 1000) in
    let battery := battery_pct (battery_code_of aux) in
    Ok (Some (Rotation tracker_id [qw; qx; qy; qz] accel_z battery))
  else if pkt_type =? 1 then Ok (Some (DeviceInfo tracker_id))
  else if pkt_type =? 2 then Ok (Some (Status tracker_id))
  else Ok None.

(** ** More of [struct] and [bytearray]: what the encoder needs *)

Module F32.
Definition prec : Z := 24.
Definition emax : Z := 128.

(** The 32 bits of a binary32 number given in canonical form. *)
Definition bits (x : spec_float) : Z :=
  let sign (s : bool) : Z := if s then 2 ^ 31 else 0 in
  match x with
  | S754_zero s => sign s
  | S754_infinity s => sign s + 255 * 2 ^ 23
  | S754_nan => 255 * 2 ^ 23 + 2 ^ 22
  | S754_finite s m e =>
      if Z.pos m <? 2 ^ 23
      then sign s + Z.pos m
      else sign s + (e + 150) * 2 ^ 23 + (Z.pos m - 2 ^ 23)
  end.

(** The C conversion [(float)x]: round to nearest, ties to even. *)
Definition of_double (x : float) : spec_float :=
  match x with
  | S754_finite s m e => binary_round prec emax s m e
  | _ => x
  end.
End F32.

(** [struct.pack('<f', x)]: OverflowError when a finite [x] rounds to
    an infinite binary32. *)
Definition pack_f (x : float) : result (list byte) :=
  match x, F32.of_double x with
  | S754_finite _ _ _, S754_infinity _ => Raise OverflowError
  | _, y => Ok (le_bytes 4 (F32.bits y))
  end.

(** The byte a [bytearray] stores for the integer [v]: ValueError
    unless [v] is in range(256). *)
Definition byte_arg (v : Z) : result byte :=
  if (0 <=? v) && (v <? 256) then Ok (byte_of_Z v) else Raise ValueError.

(** [mac[i] = v] on a bytearray. *)
Definition setitem (mac : list byte) (i : nat) (v : Z) : result (list byte) :=
  let* b := byte_arg v in
  if (i <? length mac)%nat then Ok (<[i := b]> mac) else Raise IndexError.

(** [z / y] for an int [z] and a float [y <> 0]: OverflowError when [z]
    is too large for a float. *)
Definition int_truediv (z : Z) (y : float) : result float :=
  match PyFloat.of_Z z with
  | S754_infinity _ => Raise OverflowError
  | x => Ok (PyFloat.div x y)
  end.

(** ** Protocol encoder *)

Definition PKT_HEARTBEAT : Z := 0.
Definition PKT_HANDSHAKE : Z := 3.
Definition PKT_BATTERY : Z := 12.
Definition PKT_ROTATION_DATA : Z := 17.

(** [self.mac_base], set once by [__init__] and never assigned again. *)
Definition mac_base : list byte := [x01; x02; x03; x04; x05; x00].

(** The mutable state of a [SlimeVRProtocol] object. [packet_id] is a
    Python int: it has no upper bound. *)
Record SlimeVRProtocol : Type := { packet_id : Z }.

(** [SlimeVRProtocol()] *)
Definition new_protocol : SlimeVRProtocol := {| packet_id := 0 |}.

(** A method call: the object afterwards, and the value returned or the
    exception raised. Assignments made before a raise stay made. *)
Definition call (S A : Type) : Type := S * result A.

(** The first two [pkt.extend] of every builder: the type tag, then
    the packet id as it is read at that moment. *)
Definition packet_header (tag : Z) (self : SlimeVRProtocol)
  : result (list byte) :=
  let* t := pack_I tag in
  let* i := pack_Q (packet_id self) in
  Ok (t ++ i).

(** [self.packet_id += 1] *)
Definition increment (self : SlimeVRProtocol) : SlimeVRProtocol :=
  {| packet_id := packet_id self + 1 |}.

(** The opening statements every builder shares: header, then
    increment. *)
Definition begin_packet (tag : Z) (self : SlimeVRProtocol)
  : call SlimeVRProtocol (list byte) :=
  match packet_header tag self with
  | Raise e => (self, Raise e)
  | Ok pkt => (increment self, Ok pkt)
  end.

(** What [build_handshake] does after the increment. *)
Definition handshake_body (tracker_id : Z) (pkt : list byte)
  : result (list byte) :=
  let* board := pack_I 100 in
  let* imu := pack_I 3 in
  let* mcu := pack_I 100 in
  let* i0 := pack_I 0 in
  let* i1 := pack_I 0 in
  let* i2 := pack_I 0 in
  let* major := pack_I 1 in
  let* minor := pack_I 0 in
  let* patch := pack_I 0 in
  let* build := pack_I 1 in
  let* mac := setitem mac_base 5 tracker_id in
  Ok (pkt ++ board ++ imu ++ mcu ++ (i0 ++ i1 ++ i2)
          ++ major ++ minor ++ patch ++ build ++ mac).

Definition build_handshake (tracker_id : Z) (self : SlimeVRProtocol)
  : call SlimeVRProtocol (list byte) :=
  let '(self, hd) := begin_packet PKT_HANDSHAKE self in
  (self, let* pkt := hd in handshake_body tracker_id pkt).

(** [for q in quat: pkt.extend(struct.pack('<f', q))] *)
Fixpoint pack_quat (quat : list float) : result (list byte) :=
  match quat with
  | [] => Ok []
  | q :: quat' =>
      let* b := pack_f q in
      let* bs := pack_quat quat' in
      Ok (b ++ bs)
  end.

(** What [build_rotation] does after the increment. *)
Definition rotation_body (tracker_id : Z) (quat : list float)
    (pkt : list byte) : result (list byte) :=
  let* sensor := byte_arg tracker_id in
  let* data_type := byte_arg 1 in
  let* qs := pack_quat quat in
  let* accuracy := byte_arg 1 in
  Ok (pkt ++ [sensor] ++ [data_type] ++ qs ++ [accuracy]).

Definition build_rotation (tracker_id : Z) (quat : list float)
    (self : SlimeVRProtocol) : call SlimeVRProtocol (list byte) :=
  let '(self, hd) := begin_packet PKT_ROTATION_DATA self in
  (self, let* pkt := hd in rotation_body tracker_id quat pkt).

(** What [build_battery] does after the increment. [tracker_id] is not
    used. *)
Definition battery_body (tracker_id : Z) (battery_pct : Z)
    (pkt : list byte) : result (list byte) :=
  let* level := int_truediv battery_pct (PyFloat.of_Z 100) in
  let voltage :=
    PyFloat.add (PyFloat.tenths 33) (PyFloat.mul level (PyFloat.tenths 9)) in
  let* v := pack_f voltage in
  let* level' := int_truediv battery_pct (PyFloat.of_Z 100) in
  let* p := pack_f level' in
  Ok (pkt ++ v ++ p).

Definition build_battery (tracker_id : Z) (battery_pct : Z)
    (self : SlimeVRProtocol) : call SlimeVRProtocol (list byte) :=
  let '(self, hd) := begin_packet PKT_BATTERY self in
  (self, let* pkt := hd in battery_body tracker_id battery_pct pkt).

Definition build_heartbeat (self : SlimeVRProtocol)
  : call SlimeVRProtocol (list byte) :=
  let '(self, hd) := begin_packet PKT_HEARTBEAT self in
  (self, let* pkt := hd in Ok pkt).

(** The 40 bytes of the handshake between the header and the address:
    board 100, IMU 3, MCU 100, three zero IMU-info ints, version 1.0.0,
    build 1. *)
Definition handshake_fixed : list byte :=
  le_bytes 4 100 ++ le_bytes 4 3 ++ le_bytes 4 100
  ++ (le_bytes 4 0 ++ le_bytes 4 0 ++ le_bytes 4 0)
  ++ le_bytes 4 1 ++ le_bytes 4 0 ++ le_bytes 4 0 ++ le_bytes 4 1.

(** The sequence number a packet carries: bytes 4 to 11, little-endian. *)
Definition sequence_number (pkt : list byte) : Z :=
  le_value (slice 4 12 pkt).

(** The type tag a packet carries: bytes 0 to 3, little-endian. *)
Definition type_tag (pkt : list byte) : Z :=
  le_value (slice 0 4 pkt).

(** *** Encode calls, one after the other and interleaved *)

Inductive encode_call : Type :=
| CallHandshake (tracker_id : Z)
| CallRotation (tracker_id : Z) (quat : list float)
| CallBattery (tracker_id : Z) (battery_pct : Z)
| CallHeartbeat.

Definition encode (c : encode_call) (self : SlimeVRProtocol)
  : call SlimeVRProtocol (list byte) :=
  match c with
  | CallHandshake t => build_handshake t self
  | CallRotation t quat => build_rotation t quat self
  | CallBattery t pct => build_battery t pct self
  | CallHeartbeat => build_heartbeat self
  end.

Definition tag_of (c : encode_call) : Z :=
  match c with
  | CallHandshake _ => PKT_HANDSHAKE
  | CallRotation _ _ => PKT_ROTATION_DATA
  | CallBattery _ _ => PKT_BATTERY
  | CallHeartbeat => PKT_HEARTBEAT
  end.

Definition body_of (c : encode_call) (pkt : list byte) : result (list byte) :=
  match c with
  | CallHandshake t => handshake_body t pkt
  | CallRotation t quat => rotation_body t quat pkt
  | CallBattery t pct => battery_body t pct pkt
  | CallHeartbeat => Ok pkt
  end.

(** The threads that call the encoder: the main thread from
    [handle_tracker_data], the heartbeat thread from [heartbeat_thread]. *)
Inductive thread : Type := PollThread | HeartbeatThread.

#[export] Instance thread_eq_dec : EqDecision thread.
Proof. solve_decision. Defined.

(** Calls made one at a time, each returning before the next starts,
    whichever thread makes it: the packets returned, up to the first
    call that raises. *)
Fixpoint encode_all (cs : list (thread * encode_call))
    (self : SlimeVRProtocol) : call SlimeVRProtocol (list (list byte)) :=
  match cs with
  | [] => (self, Ok [])
  | (_, c) :: cs' =>
      match encode c self with
      | (self', Raise e) => (self', Raise e)
      | (self', Ok pkt) =>
          match encode_all cs' self' with
          | (self'', Ok pkts) => (self'', Ok (pkt :: pkts))
          | (self'', Raise e) => (self'', Raise e)
          end
      end
  end.

(** The encoder has no lock, and CPython may switch threads between
    the statement that reads [self.packet_id] into the packet and the
    statement that increments it. A call is therefore two steps of its
    thread: [ReadId], up to the header; [Increment], the increment and
    the rest of the builder. *)
Inductive atom : Type :=
| ReadId (t : thread) (c : encode_call)
| Increment (t : thread).

(** The one encoder, the call each thread is in the middle of (with the
    header it has built), and the packets returned so far. *)
Record shared : Type := {
  encoder : SlimeVRProtocol;
  in_progress : thread -> option (encode_call * list byte);
  returned : list (thread * list byte);
}.

Definition shared_of (p : SlimeVRProtocol) : shared :=
  {| encoder := p; in_progress := fun _ => None; returned := [] |}.

Definition set_progress (t : thread) (v : option (encode_call * list byte))
    (f : thread -> option (encode_call * list byte))
  : thread -> option (encode_call * list byte) :=
  fun t' => if decide (t' = t) then v else f t'.

(** One step; [None] when the thread cannot take it (a second call
    while one is in progress, an increment with no call in progress). *)
Definition atom_step (a : atom) (s : shared) : option shared :=
  match a with
  | ReadId t c =>
      match in_progress s t with
      | Some _ => None
      | None =>
          match packet_header (tag_of c) (encoder s) with
          | Raise _ => Some s
          | Ok hd =>
              Some {| encoder := encoder s;
                      in_progress :=
                        set_progress t (Some (c, hd)) (in_progress s);
                      returned := returned s |}
          end
      end
  | Increment t =>
      match in_progress s t with
      | None => None
      | Some (c, hd) =>
          Some {| encoder := increment (encoder s);
                  in_progress := set_progress t None (in_progress s);
                  returned :=
                    match body_of c hd with
                    | Ok pkt => returned s ++ [(t, pkt)]
                    | Raise _ => returned s
                    end |}
      end
  end.

Fixpoint interleave (sched : list atom) (s : shared) : option shared :=
  match sched with
  | [] => Some s
  | a :: sched' =>
      match atom_step a s with
      | Some s' => interleave sched' s'
      | None => None
      end
  end.

(** The schedule in which each call runs to its end before the next
    one starts. *)
Definition one_at_a_time (cs : list (thread * encode_call)) : list atom :=
  flat_map (fun tc => [ReadId (fst tc) (snd tc); Increment (fst tc)]) cs.

(** Whether the part of a builder after the increment goes through,
    which depends on the arguments only. *)
Definition returns (c : encode_call) : bool :=
  match body_of c [] with
  | Ok _ => true
  | Raise _ => false
  end.

(** The quaternion of a frame whose w is 32767 and whose x, y, z
    are 0. *)
Definition example_quat : list float :=
  [PyFloat.div (PyFloat.of_Z 32767) (PyFloat.of_Z 32768);
   PyFloat.of_Z 0; PyFloat.of_Z 0; PyFloat.of_Z 0].

(** A schedule in which the two threads overlap. The first frame of
    tracker 0 has come: the main thread builds the handshake; then, in
    [build_rotation], it has put the packet id in its packet and not
    yet incremented it when the heartbeat thread runs a whole
    [build_heartbeat]; then the main thread goes on. *)
Definition race_schedule : list atom :=
  [ReadId PollThread (CallHandshake 0);
   Increment PollThread;
   ReadId PollThread (CallRotation 0 example_quat);
   ReadId HeartbeatThread CallHeartbeat;
   Increment HeartbeatThread;
   Increment PollThread].

(** Five calls as the two threads make them for a frame of tracker 5. *)
Definition example_calls : list (thread * encode_call) :=
  [(PollThread, CallHandshake 5);
   (HeartbeatThread, CallHeartbeat);
   (PollThread, CallRotation 5 example_quat);
   (PollThread, CallBattery 5 60);
   (HeartbeatThread, CallHeartbeat)].

(** The encoder after [n] calls of [build_heartbeat] on a new one. *)
Definition after_heartbeats (n : N) : SlimeVRProtocol :=
  N.iter n (fun self => fst (build_heartbeat self)) new_protocol.

(** ** Bridge *)

(** A method of an object with state [S]: [call] threaded through. *)
Definition method (S A : Type) : Type := S -> call S A.

Definition ret {S A} (a : A) : method S A := fun s => (s, Ok a).
Definition bind {S A B} (m : method S A) (k : A -> method S B)
  : method S B :=
  fun s =>
    match m s with
    | (s', Ok a) => k a s'
    | (s', Raise e) => (s', Raise e)
    end.
Definition gets {S A} (f : S -> A) : method S A := fun s => (s, Ok (f s)).
Definition modify {S} (f : S -> S) : method S unit := fun s => (f s, Ok tt).

Notation "'let!' x ':=' m 'in' k" := (bind m (fun x => k))
  (at level 10, x name, m at level 100, k at level 200) : py_scope.

(** Which builder call produced a datagram. The battery packet does not
    carry its tracker id, so the label keeps it. *)
Inductive message : Type :=
| MHandshake (t : Z)
| MRotation (t : Z)
| MBattery (t : Z)
| MHeartbeat.

#[export] Instance message_eq_dec : EqDecision message.
Proof. solve_decision. Defined.

Record datagram : Type := { dg_msg : message; dg_data : list byte }.

(** The lines [log_error] writes to sys.stderr. *)
Inductive diag : Type :=
| ConnectFailed      (* connect(): the exception caught while opening *)
| CannotConnect      (* run(): no device connection, leaving *)
| DeviceNotFound     (* main(): find_device() found nothing *)
| ReadFailed         (* run(): the exception caught around read() *)
| SendFailed (m : message).
                     (* send_to_slimevr(): the exception caught around
                        sendto; [m] tells which packet was lost *)

(** The calls made on the HID device object. *)
Inductive hid_call : Type := HidOpen | HidRead | HidClose.

(** The attributes of a [SlimeVRBridge] that its methods change, with
    what it does to the outside: [hid_log] is every call made on the
    HID device, [wire] every datagram [udp_socket.sendto] took,
    [stderr] every [log_error] line, each oldest first. [hid_device]
    tells whether a device object is held. Clock readings and stored
    times are exact rationals (seconds). *)
Record SlimeVRBridge : Type := {
  hid_device : bool;
  hid_log : list hid_call;
  protocol : SlimeVRProtocol;
  running : bool;
  connected_trackers : gset Z;
  last_battery_time : gmap Z Q;
  wire : list datagram;
  stderr : list diag;
}.

(** [SlimeVRBridge()] *)
Definition new_bridge : SlimeVRBridge :=
  {| hid_device := false; hid_log := []; protocol := new_protocol;
     running := false; connected_trackers := ∅; last_battery_time := ∅;
     wire := []; stderr := [] |}.

Definition set_hid_device (v : bool) (b : SlimeVRBridge) : SlimeVRBridge :=
  {| hid_device := v; hid_log := hid_log b; protocol := protocol b;
     running := running b; connected_trackers := connected_trackers b;
     last_battery_time := last_battery_time b;
     wire := wire b; stderr := stderr b |}.

Definition set_hid_log (l : list hid_call) (b : SlimeVRBridge)
  : SlimeVRBridge :=
  {| hid_device := hid_device b; hid_log := l; protocol := protocol b;
     running := running b; connected_trackers := connected_trackers b;
     last_battery_time := last_battery_time b;
     wire := wire b; stderr := stderr b |}.

Definition set_protocol (p : SlimeVRProtocol) (b : SlimeVRBridge)
  : SlimeVRBridge :=
  {| hid_device := hid_device b; hid_log := hid_log b; protocol := p;
     running := running b; connected_trackers := connected_trackers b;
     last_battery_time := last_battery_time b;
     wire := wire b; stderr := stderr b |}.

Definition set_running (v : bool) (b : SlimeVRBridge) : SlimeVRBridge :=
  {| hid_device := hid_device b; hid_log := hid_log b;
     protocol := protocol b; running := v;
     connected_trackers := connected_trackers b;
     last_battery_time := last_battery_time b;
     wire := wire b; stderr := stderr b |}.

Definition set_connected_trackers (c : gset Z) (b : SlimeVRBridge)
  : SlimeVRBridge :=
  {| hid_device := hid_device b; hid_log := hid_log b;
     protocol := protocol b;
     running := running b; connected_trackers := c;
     last_battery_time := last_battery_time b;
     wire := wire b; stderr := stderr b |}.

Definition set_last_battery_time (m : gmap Z Q) (b : SlimeVRBridge)
  : SlimeVRBridge :=
  {| hid_device := hid_device b; hid_log := hid_log b;
     protocol := protocol b;
     running := running b; connected_trackers := connected_trackers b;
     last_battery_time := m;
     wire := wire b; stderr := stderr b |}.

Definition set_wire (w : list datagram) (b : SlimeVRBridge) : SlimeVRBridge :=
  {| hid_device := hid_device b; hid_log := hid_log b;
     protocol := protocol b;
     running := running b; connected_trackers := connected_trackers b;
     last_battery_time := last_battery_time b;
     wire := w; stderr := stderr b |}.

Definition set_stderr (e : list diag) (b : SlimeVRBridge) : SlimeVRBridge :=
  {| hid_device := hid_device b; hid_log := hid_log b;
     protocol := protocol b;
     running := running b; connected_trackers := connected_trackers b;
     last_battery_time := last_battery_time b;
     wire := wire b; stderr := e |}.

(** [log_error(msg)] *)
Definition log_error (d : diag) : method SlimeVRBridge unit :=
  modify (fun b => set_stderr (stderr b ++ [d]) b).

(** [self.protocol.build_...(...)]: a builder run on the bridge's one
    encoder. *)
Definition on_protocol {A} (m : method SlimeVRProtocol A)
  : method SlimeVRBridge A :=
  fun b => let '(p, r) := m (protocol b) in (set_protocol p b, r).

(** [send_to_slimevr(data)]; [goes] tells whether [sendto] takes the
    datagram or raises. An exception of [sendto] is caught there: the
    datagram is lost, an error line is written, and the caller goes
    on. *)
Definition send_to_slimevr (msg : message) (data : list byte) (goes : bool)
  : method SlimeVRBridge unit :=
  if goes then
    modify (fun b =>
      set_wire (wire b ++ [{| dg_msg := msg; dg_data := data |}]) b)
  else log_error (SendFailed msg).

(** What [sendto] does at each of the sends a call of the handler can
    get to: [true] when it takes the datagram, [false] when it
    raises. *)
Record network : Type := {
  handshake_goes : bool;
  rotation_goes : bool;
  battery_goes : bool;
}.

Definition all_go : network :=
  {| handshake_goes := true; rotation_goes := true; battery_goes := true |}.

(** [self.last_battery_time.get(tracker_id, 0)] *)
Definition last_battery (t : Z) (b : SlimeVRBridge) : Q :=
  default 0%Q (last_battery_time b !! t).

(** [now - self.last_battery_time.get(tracker_id, 0) > 5] *)
Definition battery_due (now last : Q) : bool :=
  negb (Qle_bool (now - last) 5).

(** The first [if] of [handle_tracker_data]: a tracker that is not in
    [connected_trackers] gets its handshake and is entered. *)
Definition handshake_if_new (tracker_id : Z) (goes : bool)
  : method SlimeVRBridge unit :=
  let! known :=
    gets (fun b => bool_decide (tracker_id ∈ connected_trackers b)) in
  if (known : bool) then ret tt else
    let! handshake := on_protocol (build_handshake tracker_id) in
    let! _ := send_to_slimevr (MHandshake tracker_id) handshake goes in
    let! _ := modify (fun b =>
      set_connected_trackers ({[tracker_id]} ∪ connected_trackers b) b) in
    modify (fun b =>
      set_last_battery_time (<[tracker_id := 0%Q]> (last_battery_time b)) b).

(** Its second [if]: a rotation reading is sent on, and with it the
    battery level when more than 5 seconds have passed since the time
    kept for the tracker. [now] is what [time.time()] returns. *)
Definition forward_rotation (data : reading) (now : Q) (net : network)
  : method SlimeVRBridge unit :=
  let tracker_id := tracker_id data in
  match data with
  | Rotation _ quaternion _ battery =>
      let! rotation := on_protocol (build_rotation tracker_id quaternion) in
      let! _ := send_to_slimevr (MRotation tracker_id) rotation
                  (rotation_goes net) in
      let! last := gets (last_battery tracker_id) in
      if battery_due now last then
        let! battery := on_protocol (build_battery tracker_id battery) in
        let! _ := send_to_slimevr (MBattery tracker_id) battery
                    (battery_goes net) in
        modify (fun b =>
          set_last_battery_time (<[tracker_id := now]> (last_battery_time b)) b)
      else ret tt
  | _ => ret tt
  end.

(** [handle_tracker_data(data)] *)
Definition handle_tracker_data (data : reading) (now : Q) (net : network)
  : method SlimeVRBridge unit :=
  let! _ := handshake_if_new (tracker_id data) (handshake_goes net) in
  forward_rotation data now net.

(** One round of [heartbeat_thread]'s loop body, taken as a whole. *)
Definition heartbeat_once (goes : bool) : method SlimeVRBridge unit :=
  let! heartbeat := on_protocol build_heartbeat in
  send_to_slimevr MHeartbeat heartbeat goes.

(** A call on the HID device, noted in [hid_log]. *)
Definition hid (c : hid_call) : method SlimeVRBridge unit :=
  modify (fun b => set_hid_log (hid_log b ++ [c]) b).

(** [connect()]; [opens] tells whether the calls in its [try] block go
    through. The device object is assigned before [open] is called. *)
Definition connect (opens : bool) : method SlimeVRBridge bool :=
  let! _ := modify (set_hid_device true) in
  let! _ := hid HidOpen in
  if opens then ret true
  else let! _ := log_error ConnectFailed in ret false.

(** [disconnect()] *)
Definition disconnect : method SlimeVRBridge unit :=
  let! held := gets hid_device in
  if (held : bool) then
    let! _ := hid HidClose in
    modify (set_hid_device false)
  else ret tt.

(** What one [hid_device.read(64, timeout_ms=10)] does: it raises, or
    returns the bytes read (none on a timeout). *)
Inductive hid_read : Type :=
| ReadRaises
| ReadReturns (data : list byte).

(** What happens next while the bridge runs: the main thread goes once
    through its loop body, or the heartbeat thread once through its
    own; each comes with what its reads of the clock and its sends
    meet. The schedule of a run ends where the keyboard interrupt
    arrives. *)
Inductive tick : Type :=
| Poll (r : hid_read) (now : Q) (net : network)
| Beat (goes : bool).

(** The body of the main loop of [run()]. *)
Definition poll_once (r : hid_read) (now : Q) (net : network)
  : method SlimeVRBridge unit :=
  let! _ := hid HidRead in
  match r with
  | ReadRaises => log_error ReadFailed
  | ReadReturns [] => ret tt
  | ReadReturns data =>
      fun b =>
        match parse_rf_ultra_packet data with
        | Raise e => (b, Raise e)
        | Ok None => (b, Ok tt)
        | Ok (Some parsed) => handle_tracker_data parsed now net b
        end
  end.

(** The heartbeat thread's round. An exception there ends that thread
    only; it leaves the bridge as it was, and so would every later
    round, the packet id never decreasing. *)
Definition beat_once (goes : bool) : method SlimeVRBridge unit :=
  fun b =>
    match heartbeat_once goes b with
    | (b', Ok _) => (b', Ok tt)
    | (b', Raise _) => (b', Ok tt)
    end.

(** The [while self.running] loop, until the interrupt. *)
Fixpoint main_loop (schedule : list tick) : method SlimeVRBridge unit :=
  match schedule with
  | [] => ret tt
  | Poll r now net :: rest =>
      let! _ := poll_once r now net in main_loop rest
  | Beat goes :: rest => let! _ := beat_once goes in main_loop rest
  end.

(** [try: ... finally: ...]: the handler runs either way, and an
    exception of the body goes on after it. *)
Definition finally {S A} (body : method S A) (handler : method S unit)
  : method S A :=
  fun s =>
    match body s with
    | (s', r) =>
        match handler s' with
        | (s'', Ok _) => (s'', r)
        | (s'', Raise e) => (s'', Raise e)
        end
    end.

(** [run()] *)
Definition run (opens : bool) (schedule : list tick)
  : method SlimeVRBridge unit :=
  let! connected := connect opens in
  if (connected : bool) then
    let! _ := modify (set_running true) in
    finally (main_loop schedule)
            (let! _ := modify (set_running false) in disconnect)
  else
    log_error CannotConnect.

(** The bridge [run()] enters its loop with, when the device opens. *)
Definition loop_entry (b : SlimeVRBridge) : SlimeVRBridge :=
  set_running true
    (set_hid_log (hid_log b ++ [HidOpen]) (set_hid_device true b)).

(** The time the second [if] of the handler compares the clock with:
    what is kept for the tracker, and 0 for a tracker just entered. *)
Definition last_sent (t : Z) (b : SlimeVRBridge) : Q :=
  if decide (t ∈ connected_trackers b) then last_battery t b else 0%Q.

(** A clock reading within the 5 seconds that start at [a]. *)
Definition window (a now : Q) : Prop := (a <= now)%Q /\ (now <= a + 5)%Q.

(** What a tick does. *)
Definition tick_step (k : tick) : method SlimeVRBridge unit :=
  match k with
  | Poll r now net => poll_once r now net
  | Beat goes => beat_once goes
  end.

(** What the command line and the machine give one run of the script. *)
Record world : Type := {
  list_devices : bool;       (* --list was given *)
  device_found : bool;       (* what find_device() returns *)
  device_opens : bool;       (* whether connect()'s calls go through *)
  schedule : list tick;
}.

(** [main()], then the interpreter's exit: the bridge as the process
    leaves it, and the exit status ([sys.exit(1)] and an uncaught
    exception both give 1, a plain return gives 0). *)
Definition main (w : world) : SlimeVRBridge * Z :=
  if list_devices w then (new_bridge, 0)
  else
    let bridge := new_bridge in
    if negb (device_found w) then
      let '(bridge, _) := log_error DeviceNotFound bridge in (bridge, 1)
    else
      match run (device_opens w) (schedule w) bridge with
      | (bridge, Ok _) => (bridge, 0)
      | (bridge, Raise _) => (bridge, 1)
      end.

(** The kind selector each variant is decoded from. *)
Definition kind_of (r : reading) : Z :=
  match r with
  | Rotation _ _ _ _ => 0
  | DeviceInfo _ => 1
  | Status _ => 2
  end.

(** The header byte put together again from a reading: kind in bits
    7:6, tracker id in bits 5:0. *)
Definition header_byte (r : reading) : Z :=
  Z.lor (Z.shiftl (kind_of r) 6) (tracker_id r).

Definition frame_of (zs : list Z) : list byte := map byte_of_Z zs.

(** The frame of the design document's example: tracker 0, orientation,
    w = 32767 / 32768. *)
Definition example_frame : list byte :=
  frame_of [0; 255; 127; 0; 0; 0; 0; 0; 0; 0; 0; 0].

(** *** What is observed of a run *)

(** The messages sent so far, oldest first. *)
Definition sent (b : SlimeVRBridge) : list message := map dg_msg (wire b).

(** Every orientation or battery message for a tracker comes after a
    handshake for that tracker. *)
Definition needs_handshake (m : message) (t : Z) : Prop :=
  m = MRotation t \/ m = MBattery t.

Definition handshake_first (ms : list message) : Prop :=
  forall pre m post t,
    ms = pre ++ m :: post -> needs_handshake m t -> In (MHandshake t) pre.

(** No tracker gets two handshakes. *)
Definition handshake_once (ms : list message) : Prop :=
  forall pre post t,
    ms = pre ++ MHandshake t :: post ->
    ~ In (MHandshake t) pre /\ ~ In (MHandshake t) post.

(** The same, but for the trackers whose handshake was lost: [err] has
    the line of the failed send. *)
Definition handshake_first_unless_lost (ms : list message) (err : list diag)
  : Prop :=
  forall pre m post t,
    ms = pre ++ m :: post -> needs_handshake m t ->
    In (MHandshake t) pre \/ In (SendFailed (MHandshake t)) err.

(** The handshake of tracker [t] was handed to the socket: it went out,
    or the send failed. *)
Definition greeted (ms : list message) (err : list diag) (t : Z) : Prop :=
  In (MHandshake t) ms \/ In (SendFailed (MHandshake t)) err.

(** A handshake that was lost is not sent later. *)
Definition never_resent (ms : list message) (err : list diag) : Prop :=
  forall t, In (SendFailed (MHandshake t)) err -> ~ In (MHandshake t) ms.

(** The known trackers [c] are those whose handshake was handed to the
    socket, and the messages are in order. *)
Definition coherent (c : gset Z) (ms : list message) (err : list diag)
  : Prop :=
  (forall t, t ∈ c <-> greeted ms err t) /\
  handshake_first_unless_lost ms err /\ handshake_once ms /\
  never_resent ms err.

(** What one send adds to the messages sent and to the error lines:
    [attempt] tells whether the code gets to the send, [goes] whether
    [sendto] takes the datagram. *)
Definition delivered (attempt goes : bool) (m : message) : list message :=
  if attempt && goes then [m] else [].

Definition lost (attempt goes : bool) (m : message) : list diag :=
  if attempt && negb goes then [SendFailed m] else [].

(** How many battery messages for tracker [t]. *)
Definition batteries (t : Z) (ms : list message) : nat :=
  count_occ message_eq_dec ms (MBattery t).

(** The clock readings of the ticks of a schedule that bring an
    orientation frame of tracker [t]. *)
Fixpoint orientation_times (t : Z) (schedule : list tick) : list Q :=
  match schedule with
  | [] => []
  | Poll (ReadReturns data) now _ :: rest =>
      match parse_rf_ultra_packet data with
      | Ok (Some (Rotation t' _ _ _)) =>
          if decide (t' = t) then now :: orientation_times t rest
          else orientation_times t rest
      | _ => orientation_times t rest
      end
  | _ :: rest => orientation_times t rest
  end.

(** The trackers whose frames a schedule brings. *)
Fixpoint trackers_polled (schedule : list tick) : list Z :=
  match schedule with
  | [] => []
  | Poll (ReadReturns data) _ _ :: rest =>
      match parse_rf_ultra_packet data with
      | Ok (Some r) => tracker_id r :: trackers_polled rest
      | _ => trackers_polled rest
      end
  | _ :: rest => trackers_polled rest
  end.

(** The clock reading a tick comes with. *)
Definition clock (k : tick) : Q :=
  match k with
  | Poll _ now _ => now
  | Beat _ => 0%Q
  end.

(** The clock readings of the ticks at which a battery message for
    tracker [t] goes out, as the schedule is run from [b]. *)
Fixpoint battery_times (t : Z) (schedule : list tick) (b : SlimeVRBridge)
  : list Q :=
  match schedule with
  | [] => []
  | k :: rest =>
      let '(b1, r) := tick_step k b in
      (if decide (batteries t (sent b1) = batteries t (sent b))
       then [] else [clock k])
      ++ match r with
         | Ok _ => battery_times t rest b1
         | Raise _ => []
         end
  end.

(** Each time is more than 5 seconds after the one before, the first
    one after [last]. *)
Fixpoint spaced (last : Q) (times : list Q) : Prop :=
  match times with
  | [] => True
  | x :: times' => (5 < x - last)%Q /\ spaced x times'
  end.

(** A device-info frame of tracker 5. *)
Definition info_frame : list byte :=
  frame_of [0x45; 0; 0; 0; 0; 0; 0; 0; 0; 0; 0; 0].

(** A run: a heartbeat, an orientation frame of tracker 0, a failed
    read, the frame again two seconds later, a timeout, a device-info
    frame of tracker 5, and the frame of tracker 0 a third time, more
    than 5 seconds after the first. *)
Definition example_world : world :=
  {| list_devices := false; device_found := true; device_opens := true;
     schedule :=
       [Beat true;
        Poll (ReadReturns example_frame) 100 all_go;
        Poll ReadRaises 101 all_go;
        Poll (ReadReturns example_frame) 102 all_go;
        Poll (ReadReturns []) 103 all_go;
        Poll (ReadReturns info_frame) 104 all_go;
        Poll (ReadReturns example_frame) (1051 # 10) all_go] |}.

(** The socket refuses the handshake and takes what follows. *)
Definition handshake_lost : network :=
  {| handshake_goes := false; rotation_goes := true; battery_goes := true |}.

(** A run in which the first send fails: the handshake of tracker 0 is
    lost, and its frames go on arriving. *)
Definition lossy_world : world :=
  {| list_devices := false; device_found := true; device_opens := true;
     schedule :=
       [Poll (ReadReturns example_frame) 100 handshake_lost;
        Poll (ReadReturns example_frame) 102 all_go] |}.

(** The same machine, with a device that is found and does not open. *)
Definition failing_world (sched : list tick) : world :=
  {| list_devices := false; device_found := true; device_opens := false;
     schedule := sched |}.


(** ** What the further properties are stated with *)

(** The value [q15] computes for the 16-bit integer [raw]. *)
Definition q15_value (raw : Z) : float :=
  PyFloat.div (PyFloat.of_Z raw) (PyFloat.of_Z 32768).

(** The binary32 number with the bits [w]. *)
Definition f32_of_bits (w : Z) : spec_float :=
  let s := Z.testbit w 31 in
  let e := Z.land (Z.shiftr w 23) 255 in
  let f := Z.land w (2 ^ 23 - 1) in
  if e =? 0 then
    match f with
    | Z.pos m => S754_finite s m (-149)
    | _ => S754_zero s
    end
  else if e =? 255 then
    if f =? 0 then S754_infinity s else S754_nan
  else
    match f + 2 ^ 23 with
    | Z.pos m => S754_finite s m (e - 150)
    | _ => S754_nan
    end.

(** The C conversion [(double)y] of a binary32 number: exact. *)
Definition f32_to_double (y : spec_float) : float :=
  match y with
  | S754_finite s m e => binary_round PyFloat.prec PyFloat.emax s m e
  | _ => y
  end.

(** [struct.unpack('<f', bs)[0]]: struct.error unless [bs] has 4 bytes. *)
Definition unpack_f (bs : list byte) : result float :=
  if Nat.eqb (length bs) 4
  then Ok (f32_to_double (f32_of_bits (le_value bs)))
  else Raise StructError.

(** Equality of floating-point numbers as data. *)
Definition sf_eqb (x y : spec_float) : bool :=
  match x, y with
  | S754_zero a, S754_zero b => Bool.eqb a b
  | S754_infinity a, S754_infinity b => Bool.eqb a b
  | S754_nan, S754_nan => true
  | S754_finite a m e, S754_finite b n f =>
      Bool.eqb a b && Pos.eqb m n && Z.eqb e f
  | _, _ => false
  end.

(** [p] holds of the [count] integers from [lo] on. *)
Definition all_from (p : Z -> bool) (lo : Z) (count : positive) : bool :=
  snd (Pos.iter (fun st => (fst st + 1, snd st && p (fst st))) (lo, true) count).

(** [struct.pack('<f', _)] takes the quaternion component of [raw], and
    [struct.unpack('<f', _)] gives it back. *)
Definition q15_packs (raw : Z) : bool :=
  match pack_f (q15_value raw) with
  | Ok bs =>
      match unpack_f bs with
      | Ok y => sf_eqb y (q15_value raw)
      | Raise _ => false
      end
  | Raise _ => false
  end.

(** The readings the decoder can return. *)
Definition decoded (r : reading) : Prop :=
  exists frame, parse_rf_ultra_packet frame = Ok (Some r).

(** * Properties *)

(** ** Bytes and little-endian integers *)

Lemma Z_of_byte_range (b : byte) : 0 <= Z_of_byte b < 256.
Proof.
  unfold Z_of_byte. pose proof (Byte.to_N_bounded b). lia.
Qed.

Lemma byte_of_Z_of_byte (b : byte) : byte_of_Z (Z_of_byte b) = b.
Proof.
  pose proof (Z_of_byte_range b) as Hb.
  unfold byte_of_Z. rewrite Z.mod_small by lia.
  unfold Z_of_byte. rewrite N2Z.id, Byte.of_to_N. reflexivity.
Qed.

Lemma Z_of_byte_of_Z (z : Z) : Z_of_byte (byte_of_Z z) = z mod 256.
Proof.
  pose proof (Z.mod_pos_bound z 256 ltac:(lia)) as Hz.
  unfold byte_of_Z, Z_of_byte.
  destruct (Byte.of_N (Z.to_N (z mod 256))) as [b|] eqn:E.
  - apply Byte.to_of_N in E. rewrite E. lia.
  - apply Byte.of_N_None_iff in E. lia.
Qed.

Lemma length_le_bytes (n : nat) (v : Z) : length (le_bytes n v) = n.
Proof.
  revert v. induction n as [|n IH]; intros v; simpl; [reflexivity|].
  now rewrite IH.
Qed.

Lemma le_value_cons (b : byte) (bs : list byte) :
  le_value (b :: bs) = Z_of_byte b + 256 * le_value bs.
Proof.
  pose proof (Z_of_byte_range b) as Hb.
  cbn [le_value].
  rewrite <- Z.add_nocarry_lor.
  - rewrite Z.shiftl_mul_pow2 by lia. lia.
  - apply Z.bits_inj'. intros n Hn.
    rewrite Z.land_spec, Z.bits_0.
    destruct (Z.ltb_spec n 8) as [Hlt|Hge].
    + rewrite (Z.shiftl_spec_low _ _ _ Hlt). apply andb_false_r.
    + replace (Z.testbit (Z_of_byte b) n) with false; [reflexivity|].
      symmetry. apply Z.bits_above_log2; [lia|].
      destruct (Z.eq_dec (Z_of_byte b) 0) as [->|Hnz]; [simpl; lia|].
      apply Z.log2_lt_pow2; [lia|].
      apply Z.lt_le_trans with (2 ^ 8); [simpl; lia|].
      apply Z.pow_le_mono_r; lia.
Qed.

Lemma le_value_le_bytes (n : nat) (v : Z) :
  le_value (le_bytes n v) = v mod 2 ^ (8 * Z.of_nat n).
Proof.
  revert v. induction n as [|n IH]; intros v.
  - simpl. now rewrite Z.mod_1_r.
  - cbn [le_bytes]. rewrite le_value_cons, IH, Z_of_byte_of_Z.
    rewrite Nat2Z.inj_succ.
    replace (8 * Z.succ (Z.of_nat n)) with (8 + 8 * Z.of_nat n) by lia.
    rewrite Z.pow_add_r by lia. change (2 ^ 8) with 256.
    change 255 with (Z.ones 8). rewrite Z.land_ones by lia.
    change (2 ^ 8) with 256. rewrite Z.mod_mod by lia.
    rewrite Z.shiftr_div_pow2 by lia. change (2 ^ 8) with 256.
    rewrite Z.rem_mul_r by lia. reflexivity.
Qed.

Lemma length_slice {A} (lo hi : nat) (l : list A) :
  length (slice lo hi l) = Nat.min (hi - lo) (length l - lo).
Proof.
  unfold slice. now rewrite length_firstn, length_skipn.
Qed.

Lemma slice_app_l {A} (n : nat) (l1 l2 : list A) :
  length l1 = n -> slice 0 n (l1 ++ l2) = l1.
Proof.
  intros <-. unfold slice. rewrite Nat.sub_0_r.
  change (skipn 0 (l1 ++ l2)) with (l1 ++ l2).
  apply take_app_length.
Qed.

Lemma slice_app_mid {A} (lo hi : nat) (l1 l2 l3 : list A) :
  length l1 = lo -> (lo + length l2)%nat = hi ->
  slice lo hi (l1 ++ l2 ++ l3) = l2.
Proof.
  intros <- <-. unfold slice.
  rewrite drop_app_length.
  replace (length l1 + length l2 - length l1)%nat with (length l2) by lia.
  apply take_app_length.
Qed.

(** ** Frame decoder *)

Lemma unpack_H_ok (bs : list byte) :
  length bs = 2%nat -> unpack_H bs = Ok (le_value bs).
Proof. intros H. unfold unpack_H. now rewrite H. Qed.

Lemma q15_ok (data : list byte) (lo hi : nat) :
  length (slice lo hi data) = 2%nat -> exists q, q15 data lo hi = Ok q.
Proof.
  intros H. unfold q15, unpack_h. rewrite (unpack_H_ok _ H).
  cbn [rbind]. eauto.
Qed.

Lemma index_ok {A} (l : list A) (i : nat) :
  (i < length l)%nat -> exists a, index l i = Ok a /\ nth_error l i = Some a.
Proof.
  intros H. unfold index.
  destruct (nth_error l i) as [a|] eqn:E; [eauto|].
  apply nth_error_None in E. lia.
Qed.

Lemma parse_short (data : list byte) :
  (length data < 12)%nat -> parse_rf_ultra_packet data = Ok None.
Proof.
  intros H. unfold parse_rf_ultra_packet.
  apply Nat.ltb_lt in H. now rewrite H.
Qed.

(** What the decoder returns, case by case on the kind selector. *)
Lemma parse_long (data : list byte) (b0 : byte) :
  (12 <= length data)%nat -> nth_error data 0 = Some b0 ->
  let header := Z_of_byte b0 in
  (pkt_type_of header = 0 ->
     exists quat accel_z battery,
       parse_rf_ultra_packet data
       = Ok (Some (Rotation (tracker_id_of header) quat accel_z battery))) /\
  (pkt_type_of header = 1 ->
     parse_rf_ultra_packet data
     = Ok (Some (DeviceInfo (tracker_id_of header)))) /\
  (pkt_type_of header = 2 ->
     parse_rf_ultra_packet data = Ok (Some (Status (tracker_id_of header)))) /\
  (pkt_type_of header = 3 -> parse_rf_ultra_packet data = Ok None).
Proof.
  intros Hlen H0 header.
  assert (Hlt : (length data <? 12)%nat = false) by (apply Nat.ltb_ge; lia).
  unfold parse_rf_ultra_packet, index. rewrite Hlt, H0. cbn [rbind].
  fold header.
  repeat split; intros ->; cbn [Z.eqb Pos.eqb]; try reflexivity.
  destruct (q15_ok data 1 3) as [qw ->]; [rewrite length_slice; lia|].
  destruct (q15_ok data 3 5) as [qx ->]; [rewrite length_slice; lia|].
  destruct (q15_ok data 5 7) as [qy ->]; [rewrite length_slice; lia|].
  destruct (q15_ok data 7 9) as [qz ->]; [rewrite length_slice; lia|].
  rewrite unpack_H_ok by (rewrite length_slice; lia).
  cbn [rbind]. eauto.
Qed.

Lemma pkt_type_of_range (b : byte) :
  let k := pkt_type_of (Z_of_byte b) in k = 0 \/ k = 1 \/ k = 2 \/ k = 3.
Proof.
  cbv zeta. unfold pkt_type_of.
  assert (E : forall x, Z.land x 3 = x mod 4)
    by (intros x; apply (Z.land_ones x 2); lia).
  rewrite E.
  pose proof (Z.mod_pos_bound (Z.shiftr (Z_of_byte b) 6) 4 ltac:(lia)).
  lia.
Qed.

(** C3. The decoder returns None for every input shorter than 12 bytes
    and for every input of at least 12 bytes whose kind selector (bits
    7:6 of byte 0) is the reserved value 3; on every input of at least 12
    bytes it returns, None or a reading, and raises nothing. *)
Theorem parse_fails_soft (data : list byte) :
  ((length data < 12)%nat -> parse_rf_ultra_packet data = Ok None) /\
  (forall b0, (12 <= length data)%nat -> nth_error data 0 = Some b0 ->
     pkt_type_of (Z_of_byte b0) = 3 ->
     parse_rf_ultra_packet data = Ok None) /\
  ((12 <= length data)%nat ->
     exists o : option reading, parse_rf_ultra_packet data = Ok o).
Proof.
  split; [|split].
  - apply parse_short.
  - intros b0 Hlen H0 Hk. now apply (parse_long data b0 Hlen H0).
  - intros Hlen.
    destruct (index_ok data 0 ltac:(lia)) as (b0 & _ & H0).
    destruct (parse_long data b0 Hlen H0) as (Hrot & Hinfo & Hstat & Hres).
    destruct (pkt_type_of_range b0) as [K|[K|[K|K]]].
    + destruct (Hrot K) as (q & a & bat & ->). eauto.
    + rewrite (Hinfo K). eauto.
    + rewrite (Hstat K). eauto.
    + rewrite (Hres K). eauto.
Qed.

Lemma parse_fails_soft_witness :
  parse_rf_ultra_packet (frame_of [0; 1; 2; 3; 4; 5; 6; 7]) = Ok None /\
  parse_rf_ultra_packet (frame_of [192; 0; 0; 0; 0; 0; 0; 0; 0; 0; 0; 0; 9])
  = Ok None /\
  exists o, parse_rf_ultra_packet example_frame = Ok o.
Proof.
  split; [|split].
  - apply (parse_fails_soft (frame_of [0; 1; 2; 3; 4; 5; 6; 7])).
    simpl. lia.
  - apply (proj1 (proj2 (parse_fails_soft
             (frame_of [192; 0; 0; 0; 0; 0; 0; 0; 0; 0; 0; 0; 9]))) xc0).
    + simpl. lia.
    + reflexivity.
    + reflexivity.
  - apply (parse_fails_soft example_frame). simpl. lia.
Defined.


(** Splitting a header byte into kind and tracker id loses nothing. *)
Lemma header_split (b : byte) :
  Z.lor (Z.shiftl (pkt_type_of (Z_of_byte b)) 6) (tracker_id_of (Z_of_byte b))
  = Z_of_byte b.
Proof. destruct b; reflexivity. Qed.

Lemma tracker_id_of_range (b : byte) : 0 <= tracker_id_of (Z_of_byte b) < 64.
Proof.
  unfold tracker_id_of.
  assert (E : forall x, Z.land x 63 = x mod 64)
    by (intros x; apply (Z.land_ones x 6); lia).
  rewrite E. apply Z.mod_pos_bound. lia.
Qed.

(** Every reading the decoder returns has the kind and the tracker id
    of the frame's first byte. *)
Lemma parse_header (data : list byte) (b0 : byte) (r : reading) :
  nth_error data 0 = Some b0 ->
  parse_rf_ultra_packet data = Ok (Some r) ->
  kind_of r = pkt_type_of (Z_of_byte b0) /\
  tracker_id r = tracker_id_of (Z_of_byte b0).
Proof.
  intros H0 Hr.
  destruct (Nat.lt_ge_cases (length data) 12) as [Hs|Hlen].
  - rewrite (parse_short data Hs) in Hr. discriminate.
  - destruct (parse_long data b0 Hlen H0) as (Hrot & Hinfo & Hstat & Hres).
    destruct (pkt_type_of_range b0) as [K|[K|[K|K]]]; rewrite K.
    + destruct (Hrot K) as (q & a & bat & E). rewrite E in Hr.
      injection Hr as <-. auto.
    + rewrite (Hinfo K) in Hr. injection Hr as <-. auto.
    + rewrite (Hstat K) in Hr. injection Hr as <-. auto.
    + rewrite (Hres K) in Hr. discriminate.
Qed.

(** C7. For every 12-byte frame whose kind selector denotes an
    orientation frame, the decoder returns an orientation reading, and
    the header byte put together from the reading's kind (top 2 bits)
    and tracker id (low 6 bits) is the frame's byte 0. *)
Theorem header_roundtrip (data : list byte) (b0 : byte) :
  length data = 12%nat -> nth_error data 0 = Some b0 ->
  pkt_type_of (Z_of_byte b0) = 0 ->
  exists r, parse_rf_ultra_packet data = Ok (Some r) /\
            is_rotation r = true /\
            header_byte r = Z_of_byte b0.
Proof.
  intros Hlen H0 K.
  destruct (parse_long data b0 ltac:(lia) H0) as (Hrot & _).
  destruct (Hrot K) as (q & a & bat & E).
  eexists. split; [exact E|]. split; [reflexivity|].
  destruct (parse_header data b0 _ H0 E) as [Hk Ht].
  unfold header_byte. rewrite Hk, Ht. apply header_split.
Qed.

Lemma header_roundtrip_witness :
  exists r, parse_rf_ultra_packet
              (frame_of [0x2a; 255; 127; 0; 0; 0; 0; 0; 0; 0; 0; 0])
            = Ok (Some r) /\
            is_rotation r = true /\ header_byte r = 0x2a.
Proof.
  apply (header_roundtrip
           (frame_of [0x2a; 255; 127; 0; 0; 0; 0; 0; 0; 0; 0; 0]) "*"%byte);
    reflexivity.
Defined.

Lemma battery_code_of_range (aux : Z) : 0 <= battery_code_of aux <= 15.
Proof.
  unfold battery_code_of.
  assert (E : forall x, Z.land x 15 = x mod 16)
    by (intros x; apply (Z.land_ones x 4); lia).
  rewrite E. pose proof (Z.mod_pos_bound (Z.shiftr aux 12) 16 ltac:(lia)). lia.
Qed.

(** The battery entry of a decoded orientation reading is the 4-bit
    code in bits 15:12 of the auxiliary field, scaled. *)
Lemma parse_battery (data : list byte) t quat accel_z battery :
  parse_rf_ultra_packet data = Ok (Some (Rotation t quat accel_z battery)) ->
  battery = battery_pct (battery_code_of (le_value (slice 9 11 data))).
Proof.
  intros Hr.
  destruct (Nat.lt_ge_cases (length data) 12) as [Hs|Hlen].
  { rewrite (parse_short data Hs) in Hr. discriminate. }
  destruct (index_ok data 0 ltac:(lia)) as (b0 & Hi & H0).
  unfold parse_rf_ultra_packet in Hr.
  rewrite (proj2 (Nat.ltb_ge _ _) Hlen), Hi in Hr. cbn [rbind] in Hr.
  destruct (pkt_type_of (Z_of_byte b0) =? 0).
  - destruct (q15_ok data 1 3) as [qw Ew]; [rewrite length_slice; lia|].
    destruct (q15_ok data 3 5) as [qx Ex]; [rewrite length_slice; lia|].
    destruct (q15_ok data 5 7) as [qy Ey]; [rewrite length_slice; lia|].
    destruct (q15_ok data 7 9) as [qz Ez]; [rewrite length_slice; lia|].
    rewrite Ew, Ex, Ey, Ez in Hr.
    rewrite unpack_H_ok in Hr by (rewrite length_slice; lia).
    cbn [rbind] in Hr. now injection Hr as _ _ _ <-.
  - destruct (pkt_type_of (Z_of_byte b0) =? 1); [discriminate|].
    destruct (pkt_type_of (Z_of_byte b0) =? 2); discriminate.
Qed.

(** C8. The map from the raw 4-bit battery code to the percentage,
    code * 100 / 15 with integer division, is non-decreasing over the
    codes 0 to 15, sends 0 to 0 and 15 to 100; and it is the map the
    decoder applies to the 4-bit code of the frame. *)
Theorem battery_scaling_monotone :
  (forall c1 c2, 0 <= c1 -> c1 <= c2 -> c2 <= 15 ->
     battery_pct c1 <= battery_pct c2) /\
  battery_pct 0 = 0 /\ battery_pct 15 = 100 /\
  (forall data t quat accel_z battery,
     parse_rf_ultra_packet data = Ok (Some (Rotation t quat accel_z battery)) ->
     exists code, 0 <= code <= 15 /\
       code = battery_code_of (le_value (slice 9 11 data)) /\
       battery = battery_pct code).
Proof.
  repeat split.
  - intros c1 c2 H0 H12 H15. unfold battery_pct.
    apply Z.div_le_mono; lia.
  - intros data t quat accel_z battery Hr.
    exists (battery_code_of (le_value (slice 9 11 data))).
    split; [apply battery_code_of_range|].
    split; [reflexivity|]. exact (parse_battery _ _ _ _ _ Hr).
Qed.

Lemma battery_scaling_monotone_witness :
  battery_pct 7 <= battery_pct 8 /\
  exists code, 0 <= code <= 15 /\
    code = battery_code_of
             (le_value (slice 9 11
                (frame_of [5; 255; 127; 0; 128; 0; 0; 0; 0; 255; 0x9f; 0]))) /\
    60 = battery_pct code.
Proof.
  split.
  - apply (proj1 battery_scaling_monotone 7 8); lia.
  - apply (proj2 (proj2 (proj2 battery_scaling_monotone))
             (frame_of [5; 255; 127; 0; 128; 0; 0; 0; 0; 255; 0x9f; 0])
             5
             [PyFloat.div (PyFloat.of_Z 32767) (PyFloat.of_Z 32768);
              PyFloat.div (PyFloat.of_Z (-32768)) (PyFloat.of_Z 32768);
              PyFloat.of_Z 0; PyFloat.of_Z 0]
             (PyFloat.div (PyFloat.of_Z (-1)) (PyFloat.of_Z 1000))
             60).
    vm_compute. reflexivity.
Defined.

(** ** Protocol encoder *)

Lemma pack_Q_ok (v : Z) : 0 <= v < 2 ^ 64 -> pack_Q v = Ok (le_bytes 8 v).
Proof.
  intros H. unfold pack_Q.
  destruct (Z.leb_spec 0 v); [|lia]. destruct (Z.ltb_spec v (2 ^ 64)); [|lia].
  reflexivity.
Qed.

Lemma pack_Q_raises (v : Z) : 2 ^ 64 <= v -> pack_Q v = Raise StructError.
Proof.
  intros H. unfold pack_Q.
  destruct (Z.ltb_spec v (2 ^ 64)); [lia|]. now rewrite andb_false_r.
Qed.

Lemma byte_arg_ok (v : Z) : 0 <= v < 256 -> byte_arg v = Ok (byte_of_Z v).
Proof.
  intros H. unfold byte_arg.
  destruct (Z.leb_spec 0 v); [|lia]. destruct (Z.ltb_spec v 256); [|lia].
  reflexivity.
Qed.

(** The header of a packet under construction, for the four tags. *)
Lemma packet_header_ok (c : encode_call) (self : SlimeVRProtocol) :
  0 <= packet_id self < 2 ^ 64 ->
  packet_header (tag_of c) self
  = Ok (le_bytes 4 (tag_of c) ++ le_bytes 8 (packet_id self)).
Proof.
  intros H. unfold packet_header. rewrite (pack_Q_ok _ H).
  destruct c; reflexivity.
Qed.

Lemma packet_header_raises (tag : Z) (self : SlimeVRProtocol) :
  2 ^ 64 <= packet_id self -> exists e, packet_header tag self = Raise e.
Proof.
  intros H. unfold packet_header. rewrite (pack_Q_raises _ H).
  destruct (pack_I tag); cbn [rbind]; eauto.
Qed.

Lemma begin_packet_ok (c : encode_call) (self : SlimeVRProtocol) :
  0 <= packet_id self < 2 ^ 64 ->
  begin_packet (tag_of c) self
  = (increment self,
     Ok (le_bytes 4 (tag_of c) ++ le_bytes 8 (packet_id self))).
Proof.
  intros H. unfold begin_packet. now rewrite (packet_header_ok c self H).
Qed.

Lemma begin_packet_raises (tag : Z) (self : SlimeVRProtocol) :
  2 ^ 64 <= packet_id self -> exists e, begin_packet tag self = (self, Raise e).
Proof.
  intros H. unfold begin_packet.
  destruct (packet_header_raises tag self H) as [e ->]. eauto.
Qed.

Lemma handshake_body_ok (t : Z) (pkt : list byte) :
  0 <= t < 256 ->
  handshake_body t pkt
  = Ok (pkt ++ handshake_fixed ++ [x01; x02; x03; x04; x05; byte_of_Z t]).
Proof.
  intros H. unfold handshake_body, setitem. rewrite (byte_arg_ok _ H).
  cbn -[byte_of_Z le_bytes app]. unfold handshake_fixed.
  now rewrite <- !app_assoc.
Qed.

Lemma build_handshake_ok (t : Z) (self : SlimeVRProtocol) :
  0 <= t < 256 -> 0 <= packet_id self < 2 ^ 64 ->
  build_handshake t self
  = (increment self,
     Ok ((le_bytes 4 PKT_HANDSHAKE ++ le_bytes 8 (packet_id self))
         ++ handshake_fixed ++ [x01; x02; x03; x04; x05; byte_of_Z t])).
Proof.
  intros Ht Hp. unfold build_handshake.
  pose proof (begin_packet_ok (CallHandshake t) self Hp) as E.
  cbn [tag_of] in E. rewrite E.
  cbn [rbind]. now rewrite (handshake_body_ok _ _ Ht).
Qed.

(** C4, as the design document states it, fails: the payload of the
    handshake built for tracker 0 by a fresh encoder has 46 bytes after
    the 12-byte header, not 41. *)
Lemma handshake_payload_not_41 :
  exists pkt,
    build_handshake 0 new_protocol = (increment new_protocol, Ok pkt) /\
    length (skipn 12 pkt) = 46%nat /\
    length (skipn 12 pkt) <> 41%nat.
Proof.
  eexists. split; [reflexivity|]. split; [reflexivity|]. vm_compute. lia.
Qed.

(** C4, amended. For every tracker id that fits a byte (0 to 255; the
    decoder yields 0 to 63) and every encoder whose packet id fits 64
    bits, build_handshake returns a packet made of the 12-byte common
    header (4-byte type tag 3, 8-byte sequence number) and a payload of
    exactly 46 bytes, which ends in a 6-byte address whose first five
    bytes are 01 02 03 04 05 and whose last byte is the tracker id. *)
Theorem handshake_layout (t : Z) (self : SlimeVRProtocol) :
  0 <= t < 256 -> 0 <= packet_id self < 2 ^ 64 ->
  exists header payload mac5,
    build_handshake t self = (increment self, Ok (header ++ payload)) /\
    length header = 12%nat /\
    type_tag header = PKT_HANDSHAKE /\
    sequence_number header = packet_id self /\
    length payload = 46%nat /\
    slice 40 46 payload = [x01; x02; x03; x04; x05; mac5] /\
    Z_of_byte mac5 = t.
Proof.
  intros Ht Hp.
  exists (le_bytes 4 PKT_HANDSHAKE ++ le_bytes 8 (packet_id self)),
         (handshake_fixed ++ [x01; x02; x03; x04; x05; byte_of_Z t]),
         (byte_of_Z t).
  split; [apply (build_handshake_ok t self Ht Hp)|].
  split; [now rewrite length_app, !length_le_bytes|].
  split.
  { unfold type_tag. rewrite slice_app_l by apply length_le_bytes.
    reflexivity. }
  split.
  { unfold sequence_number.
    rewrite <- (app_nil_r (le_bytes 8 (packet_id self))).
    rewrite (slice_app_mid 4 12) by (rewrite ?length_le_bytes; lia).
    rewrite le_value_le_bytes. apply Z.mod_small. simpl Z.of_nat. lia. }
  split; [reflexivity|].
  split.
  { rewrite <- (app_nil_r [x01; x02; x03; x04; x05; byte_of_Z t]).
    now rewrite (slice_app_mid 40 46) by reflexivity. }
  rewrite Z_of_byte_of_Z. apply Z.mod_small. lia.
Qed.

Lemma handshake_layout_witness :
  exists header payload mac5,
    build_handshake 7 {| packet_id := 258 |}
    = (increment {| packet_id := 258 |}, Ok (header ++ payload)) /\
    length header = 12%nat /\
    type_tag header = PKT_HANDSHAKE /\
    sequence_number header = 258 /\
    length payload = 46%nat /\
    slice 40 46 payload = [x01; x02; x03; x04; x05; mac5] /\
    Z_of_byte mac5 = 7.
Proof.
  apply (handshake_layout 7 {| packet_id := 258 |}); simpl; lia.
Defined.

Lemma sequence_number_header (tag id : Z) (rest : list byte) :
  0 <= id < 2 ^ 64 ->
  sequence_number ((le_bytes 4 tag ++ le_bytes 8 id) ++ rest) = id.
Proof.
  intros H. unfold sequence_number. rewrite <- app_assoc.
  rewrite (slice_app_mid 4 12) by (rewrite ?length_le_bytes; lia).
  rewrite le_value_le_bytes. apply Z.mod_small. simpl Z.of_nat. lia.
Qed.

(** Every builder appends to the header it was given. *)
Lemma body_of_app (c : encode_call) (hd : list byte) :
  body_of c hd
  = match body_of c [] with
    | Ok payload => Ok (hd ++ payload)
    | Raise e => Raise e
    end.
Proof.
  destruct c as [t|t quat|t pct|]; cbn [body_of].
  - unfold handshake_body. destruct (setitem mac_base 5 t); reflexivity.
  - unfold rotation_body.
    destruct (byte_arg t); cbn [rbind]; [|reflexivity].
    destruct (byte_arg 1); cbn [rbind]; [|reflexivity].
    destruct (pack_quat quat); reflexivity.
  - unfold battery_body.
    destruct (int_truediv pct (PyFloat.of_Z 100)); cbn [rbind]; [|reflexivity].
    destruct (pack_f _); cbn [rbind]; [|reflexivity].
    destruct (pack_f _); reflexivity.
  - now rewrite app_nil_r.
Qed.

Lemma encode_begin_body (c : encode_call) (self : SlimeVRProtocol) :
  encode c self
  = let '(self', hd) := begin_packet (tag_of c) self in
    (self', let* pkt := hd in body_of c pkt).
Proof.
  destruct c; reflexivity.
Qed.

(** An encode call on an encoder whose packet id fits 64 bits. *)
Lemma encode_below (c : encode_call) (self : SlimeVRProtocol) :
  0 <= packet_id self < 2 ^ 64 ->
  encode c self
  = (increment self,
     body_of c (le_bytes 4 (tag_of c) ++ le_bytes 8 (packet_id self))).
Proof.
  intros H. rewrite encode_begin_body, (begin_packet_ok c self H).
  reflexivity.
Qed.

(** An encode call on an encoder whose packet id does not. *)
Lemma encode_beyond (c : encode_call) (self : SlimeVRProtocol) :
  2 ^ 64 <= packet_id self -> exists e, encode c self = (self, Raise e).
Proof.
  intros H. rewrite encode_begin_body.
  destruct (begin_packet_raises (tag_of c) self H) as [e ->].
  cbn [rbind]. eauto.
Qed.

Lemma encode_negative (c : encode_call) (self : SlimeVRProtocol) :
  packet_id self < 0 -> exists e, encode c self = (self, Raise e).
Proof.
  intros H. rewrite encode_begin_body. unfold begin_packet, packet_header.
  assert (E : pack_Q (packet_id self) = Raise StructError).
  { unfold pack_Q. destruct (Z.leb_spec 0 (packet_id self)); [lia|].
    reflexivity. }
  rewrite E. destruct (pack_I (tag_of c)); cbn [rbind]; eauto.
Qed.

Lemma encode_returns (c : encode_call) (self : SlimeVRProtocol) :
  0 <= packet_id self < 2 ^ 64 -> returns c = true ->
  exists payload,
    encode c self
    = (increment self,
       Ok ((le_bytes 4 (tag_of c) ++ le_bytes 8 (packet_id self)) ++ payload)).
Proof.
  intros H Hr. rewrite (encode_below c self H), body_of_app.
  unfold returns in Hr. destruct (body_of c []); [eauto|discriminate].
Qed.

Lemma encode_counter (c : encode_call) (self : SlimeVRProtocol) :
  packet_id (fst (encode c self))
  = if (0 <=? packet_id self) && (packet_id self <? 2 ^ 64)
    then packet_id self + 1 else packet_id self.
Proof.
  destruct (Z.leb_spec 0 (packet_id self)) as [H0|H0]; cbn [andb].
  - destruct (Z.ltb_spec (packet_id self) (2 ^ 64)) as [H1|H1].
    + now rewrite (encode_below c self (conj H0 H1)).
    + destruct (encode_beyond c self H1) as [e ->]. reflexivity.
  - destruct (encode_negative c self H0) as [e ->]. reflexivity.
Qed.

Lemma after_heartbeats_succ (n : N) :
  after_heartbeats (N.succ n) = fst (build_heartbeat (after_heartbeats n)).
Proof. unfold after_heartbeats. now rewrite N.iter_succ. Qed.

(** The first 2^64 heartbeats of a new encoder each add one. *)
Lemma after_heartbeats_counter (n : N) :
  Z.of_N n <= 2 ^ 64 -> packet_id (after_heartbeats n) = Z.of_N n.
Proof.
  induction n as [|n IH] using N.peano_ind; intros H; [reflexivity|].
  rewrite after_heartbeats_succ.
  change (build_heartbeat (after_heartbeats n))
    with (encode CallHeartbeat (after_heartbeats n)).
  rewrite encode_counter, IH by lia.
  destruct (Z.leb_spec 0 (Z.of_N n)); [|lia].
  destruct (Z.ltb_spec (Z.of_N n) (2 ^ 64)); [|lia].
  cbn [andb]. lia.
Qed.

(** C6, as the design document states it, fails at the 64-bit boundary.
    A new encoder gets to packet id 2^64 - 1 (after that many
    heartbeats); the next build_heartbeat returns its packet and leaves
    the packet id at 2^64, not 0; and every later build_heartbeat raises
    struct.error. *)
Lemma packet_id_does_not_wrap :
  let self := after_heartbeats (2 ^ 64 - 1) in
  packet_id self = 2 ^ 64 - 1 /\
  (exists pkt, build_heartbeat self = ({| packet_id := 2 ^ 64 |}, Ok pkt)) /\
  packet_id (fst (build_heartbeat self)) <> 0 /\
  build_heartbeat {| packet_id := 2 ^ 64 |}
  = ({| packet_id := 2 ^ 64 |}, Raise StructError).
Proof.
  cbv zeta.
  assert (E : packet_id (after_heartbeats (2 ^ 64 - 1)) = 2 ^ 64 - 1).
  { rewrite after_heartbeats_counter;
      reflexivity || (vm_compute; discriminate). }
  destruct (after_heartbeats (2 ^ 64 - 1)) as [id]. cbn [packet_id] in E.
  subst id. repeat split.
  - eexists. vm_compute. reflexivity.
  - vm_compute. discriminate.
Qed.

(** C6, amended. The packet id of a new encoder is 0; every encode
    call, of any message type, made while the packet id is below 2^64
    leaves it exactly 1 higher; no encode call ever lowers it; and it
    does not wrap: once it is 2^64 or more every encode call raises and
    leaves it as it is. *)
Theorem packet_id_counts_calls :
  packet_id new_protocol = 0 /\
  (forall c self, 0 <= packet_id self < 2 ^ 64 ->
     packet_id (fst (encode c self)) = packet_id self + 1) /\
  (forall c self, packet_id self <= packet_id (fst (encode c self))) /\
  (forall c self, 2 ^ 64 <= packet_id self ->
     exists e, encode c self = (self, Raise e)).
Proof.
  split; [reflexivity|]. split; [|split].
  - intros c self H. now rewrite (encode_below c self H).
  - intros c self. rewrite encode_counter.
    destruct ((0 <=? packet_id self) && (packet_id self <? 2 ^ 64)); lia.
  - apply encode_beyond.
Qed.

Lemma packet_id_counts_calls_witness :
  packet_id (fst (encode (CallBattery 3 60) {| packet_id := 41 |})) = 41 + 1 /\
  exists e, encode (CallHandshake 3) {| packet_id := 2 ^ 64 |}
            = ({| packet_id := 2 ^ 64 |}, Raise e).
Proof.
  split.
  - apply (proj1 (proj2 packet_id_counts_calls)
             (CallBattery 3 60) {| packet_id := 41 |}).
    simpl. lia.
  - apply (proj2 (proj2 (proj2 packet_id_counts_calls))
             (CallHandshake 3) {| packet_id := 2 ^ 64 |}).
    simpl. lia.
Defined.

(** *** One encoder, two callers *)

Lemma encode_all_numbers (cs : list (thread * encode_call))
    (self : SlimeVRProtocol) :
  0 <= packet_id self ->
  packet_id self + Z.of_nat (length cs) <= 2 ^ 64 ->
  Forall (fun tc => returns (snd tc) = true) cs ->
  exists pkts,
    encode_all cs self
    = ({| packet_id := packet_id self + Z.of_nat (length cs) |}, Ok pkts) /\
    map sequence_number pkts
    = map (fun i => packet_id self + Z.of_nat i) (seq 0 (length cs)).
Proof.
  revert self. induction cs as [|[t c] cs IH]; intros self H0 Hn Hr.
  - exists []. destruct self as [id]. cbn. now rewrite Z.add_0_r.
  - cbn [length] in Hn. rewrite Nat2Z.inj_succ in Hn.
    apply Forall_cons_iff in Hr as [Hc Hr]. cbn [snd] in Hc.
    destruct (encode_returns c self ltac:(lia) Hc) as [payload E].
    destruct (IH (increment self)) as (pkts & Eall & Enum);
      [cbn; lia | cbn; lia | exact Hr |].
    eexists. cbn [encode_all]. rewrite E, Eall. split.
    + cbn [packet_id increment length]. do 2 f_equal. lia.
    + cbn [map length seq]. rewrite sequence_number_header by lia.
      rewrite Enum, <- seq_shift, map_map. cbn [packet_id increment].
      f_equal; [lia|]. apply map_ext. intros i. lia.
Qed.

Lemma encode_inv (c : encode_call) (self self' : SlimeVRProtocol)
    (pkt : list byte) :
  encode c self = (self', Ok pkt) ->
  exists hd, packet_header (tag_of c) self = Ok hd /\
             self' = increment self /\ body_of c hd = Ok pkt.
Proof.
  rewrite encode_begin_body. unfold begin_packet.
  destruct (packet_header (tag_of c) self) as [hd|e]; cbn [rbind].
  - intros [= <- E]. eauto.
  - discriminate.
Qed.

(** Run one at a time, the two-step calls do what the builders do. *)
Lemma interleave_one_at_a_time (cs : list (thread * encode_call))
    (s : shared) (self' : SlimeVRProtocol) (pkts : list (list byte)) :
  (forall t, in_progress s t = None) ->
  encode_all cs (encoder s) = (self', Ok pkts) ->
  exists s', interleave (one_at_a_time cs) s = Some s' /\
             encoder s' = self' /\
             returned s' = returned s ++ zip (map fst cs) pkts.
Proof.
  revert s pkts. induction cs as [|[t c] cs IH]; intros s pkts Hidle Hall.
  - injection Hall as <- <-. exists s. cbn. now rewrite app_nil_r.
  - cbn [encode_all] in Hall.
    destruct (encode c (encoder s)) as [self1 [pkt|e]] eqn:E; [|discriminate].
    destruct (encode_all cs self1) as [self2 [pkts'|e]] eqn:Eall;
      [|discriminate].
    injection Hall as <- <-.
    destruct (encode_inv _ _ _ _ E) as (hd & Ehd & -> & Ebody).
    cbn [one_at_a_time flat_map fst snd app interleave atom_step].
    rewrite (Hidle t), Ehd.
    cbn [interleave atom_step in_progress encoder returned].
    unfold set_progress at 1. rewrite decide_True by reflexivity.
    rewrite Ebody. fold (one_at_a_time cs).
    match goal with
    | |- context [interleave _ ?s1] =>
        destruct (IH s1 pkts') as (s' & Erun & Eenc & Eret)
    end.
    + intros t'. cbn [in_progress]. unfold set_progress.
      destruct (decide (t' = t)); [reflexivity|]. apply Hidle.
    + exact Eall.
    + exists s'. split; [exact Erun|]. split; [exact Eenc|].
      rewrite Eret. cbn [returned map fst zip_with].
      now rewrite <- app_assoc.
Qed.

(** C1, as the design document states it, fails. On a new bridge the
    first frame of tracker 0 comes: the main thread builds the
    handshake, number 0; it starts build_rotation and is switched out
    after reading the packet id; the heartbeat thread runs
    build_heartbeat; the main thread goes on. The heartbeat and the
    rotation packet both carry sequence number 1, and the packet id is
    then 3, so that number 2 is never sent. *)
Lemma race_repeats_sequence_number :
  exists s, interleave race_schedule (shared_of new_protocol) = Some s /\
    map (fun r => (fst r, type_tag (snd r), sequence_number (snd r)))
        (returned s)
    = [(PollThread, PKT_HANDSHAKE, 0);
       (HeartbeatThread, PKT_HEARTBEAT, 1);
       (PollThread, PKT_ROTATION_DATA, 1)] /\
    packet_id (encoder s) = 3.
Proof.
  eexists. split; [reflexivity|]. split; reflexivity.
Qed.

(** C1, amended. When the N encode calls are made one at a time (each
    call returns before the next one starts), whichever of the two
    threads makes each call, the sequence numbers of the N packets are
    the packet id at the start, then one more per call, with no number
    repeated and none left out; the encoder takes no lock, and calls
    that overlap can repeat a number. (The packet id is taken to stay
    within 64 bits, and the calls to have arguments the builders
    accept.) *)
Theorem sequence_numbers_one_at_a_time (cs : list (thread * encode_call))
    (self : SlimeVRProtocol) :
  0 <= packet_id self ->
  packet_id self + Z.of_nat (length cs) <= 2 ^ 64 ->
  Forall (fun tc => returns (snd tc) = true) cs ->
  exists pkts s,
    encode_all cs self
    = ({| packet_id := packet_id self + Z.of_nat (length cs) |}, Ok pkts) /\
    interleave (one_at_a_time cs) (shared_of self) = Some s /\
    returned s = zip (map fst cs) pkts /\
    map sequence_number pkts
    = map (fun i => packet_id self + Z.of_nat i) (seq 0 (length cs)).
Proof.
  intros H0 Hn Hr.
  destruct (encode_all_numbers cs self H0 Hn Hr) as (pkts & Eall & Enum).
  destruct (interleave_one_at_a_time cs (shared_of self) _ pkts
              ltac:(reflexivity) Eall) as (s & Erun & _ & Eret).
  exists pkts, s. auto.
Qed.

Lemma sequence_numbers_one_at_a_time_witness :
  exists pkts s,
    encode_all example_calls {| packet_id := 7 |}
    = ({| packet_id := 7 + 5 |}, Ok pkts) /\
    interleave (one_at_a_time example_calls) (shared_of {| packet_id := 7 |})
    = Some s /\
    returned s
    = zip [PollThread; HeartbeatThread; PollThread; PollThread;
           HeartbeatThread] pkts /\
    map sequence_number pkts = [7; 8; 9; 10; 11].
Proof.
  apply (sequence_numbers_one_at_a_time example_calls {| packet_id := 7 |}).
  - simpl. lia.
  - simpl. lia.
  - repeat constructor.
Defined.

(** ** Bridge *)

Lemma handshake_if_new_effect (t : Z) (goes : bool) (b : SlimeVRBridge) :
  let b' := fst (handshake_if_new t goes b) in
  exists hs : bool,
    sent b' = sent b ++ delivered hs goes (MHandshake t) /\
    stderr b' = stderr b ++ lost hs goes (MHandshake t) /\
    connected_trackers b'
    = (if hs then {[t]} ∪ connected_trackers b else connected_trackers b) /\
    last_battery_time b'
    = (if hs then <[t := 0%Q]> (last_battery_time b)
       else last_battery_time b) /\
    (hs = true -> t ∉ connected_trackers b) /\
    (snd (handshake_if_new t goes b) = Ok tt -> t ∈ connected_trackers b').
Proof.
  cbv zeta.
  unfold handshake_if_new, send_to_slimevr, on_protocol, log_error.
  unfold bind, gets, ret, modify.
  destruct (bool_decide (t ∈ connected_trackers b)) eqn:Hk.
  - apply bool_decide_eq_true in Hk. exists false. cbn.
    rewrite !app_nil_r. repeat split; auto. discriminate.
  - apply bool_decide_eq_false in Hk.
    destruct (build_handshake t (protocol b)) as [p [pkt|e]].
    + exists true.
      destruct goes; cbn; unfold sent; cbn; rewrite ?map_app, ?app_nil_r;
        cbn; repeat split; auto; intros _; set_solver.
    + exists false. cbn. rewrite !app_nil_r. repeat split; auto.
      discriminate.
Qed.

Lemma forward_rotation_effect (data : reading) (now : Q) (net : network)
    (b : SlimeVRBridge) :
  let t := tracker_id data in
  let b' := fst (forward_rotation data now net b) in
  exists rot bat : bool,
    sent b' = sent b ++ delivered rot (rotation_goes net) (MRotation t)
                     ++ delivered bat (battery_goes net) (MBattery t) /\
    stderr b' = stderr b ++ lost rot (rotation_goes net) (MRotation t)
                         ++ lost bat (battery_goes net) (MBattery t) /\
    connected_trackers b' = connected_trackers b /\
    last_battery_time b'
    = (if bat then <[t := now]> (last_battery_time b)
       else last_battery_time b) /\
    (rot = true -> is_rotation data = true) /\
    (bat = true -> rot = true /\ battery_due now (last_battery t b) = true) /\
    (snd (forward_rotation data now net b) = Ok tt ->
       (is_rotation data = true -> rot = true) /\
       (rot = true -> bat = battery_due now (last_battery t b))).
Proof.
  cbv zeta. destruct net as [hg rg bg]. cbn [rotation_goes battery_goes].
  destruct data as [t quat az pct|t|t]; cbn [forward_rotation tracker_id].
  2,3: exists false, false; cbn; rewrite !app_nil_r;
       repeat split; auto; discriminate.
  cbn [rotation_goes battery_goes].
  unfold send_to_slimevr, on_protocol, log_error.
  unfold bind, gets, ret, modify.
  destruct (build_rotation t quat (protocol b)) as [p [pkt|e]].
  2: { exists false, false. cbn. rewrite !app_nil_r.
       repeat split; auto; discriminate. }
  destruct rg; cbn [fst snd];
    match goal with
    | |- context [battery_due now (last_battery t ?b1)] =>
        change (last_battery t b1) with (last_battery t b)
    end;
    (destruct (battery_due now (last_battery t b)) eqn:Hdue;
     [ cbv beta;
       match goal with
       | |- context [build_battery t pct ?x] =>
           destruct (build_battery t pct x) as [p' [pkt'|e']]
       end;
       [ exists true, true; destruct bg
       | exists true, false ]
     | exists true, false ]);
    cbn; unfold sent; cbn; rewrite ?map_app, ?app_nil_r; cbn;
    rewrite <- ?app_assoc; repeat split; auto; discriminate.
Qed.

Lemma handle_tracker_data_unfold (data : reading) (now : Q) (net : network)
    (b : SlimeVRBridge) :
  handle_tracker_data data now net b
  = match handshake_if_new (tracker_id data) (handshake_goes net) b with
    | (b1, Ok _) => forward_rotation data now net b1
    | (b1, Raise e) => (b1, Raise e)
    end.
Proof. reflexivity. Qed.

(** What one call of the handler does to the messages sent, the error
    lines, the trackers known and the battery times: [hs], [rot] and
    [bat] tell which of the three sends the handler gets to; [kept] is
    the table of battery times as the second [if] finds it. A send that
    fails does not change what the handler does next. *)
Lemma handle_effect (data : reading) (now : Q) (net : network)
    (b : SlimeVRBridge) :
  let t := tracker_id data in
  let b' := fst (handle_tracker_data data now net b) in
  exists hs rot bat : bool,
    let kept :=
      if hs then <[t := 0%Q]> (last_battery_time b) else last_battery_time b in
    sent b' = ((sent b ++ delivered hs (handshake_goes net) (MHandshake t))
                      ++ delivered rot (rotation_goes net) (MRotation t))
                      ++ delivered bat (battery_goes net) (MBattery t) /\
    stderr b' = ((stderr b ++ lost hs (handshake_goes net) (MHandshake t))
                           ++ lost rot (rotation_goes net) (MRotation t))
                           ++ lost bat (battery_goes net) (MBattery t) /\
    connected_trackers b'
    = (if hs then {[t]} ∪ connected_trackers b else connected_trackers b) /\
    last_battery_time b' = (if bat then <[t := now]> kept else kept) /\
    (hs = true -> t ∉ connected_trackers b) /\
    (rot = true -> is_rotation data = true /\ t ∈ connected_trackers b') /\
    (bat = true ->
       rot = true /\ battery_due now (default 0%Q (kept !! t)) = true) /\
    (snd (handle_tracker_data data now net b) = Ok tt ->
       t ∈ connected_trackers b' /\
       (is_rotation data = true -> rot = true) /\
       (rot = true -> bat = battery_due now (default 0%Q (kept !! t)))).
Proof.
  cbv zeta. rewrite handle_tracker_data_unfold.
  destruct (handshake_if_new_effect (tracker_id data) (handshake_goes net) b)
    as (hs & Hs & He & Hc & Hl & Hnew & Hok).
  destruct (handshake_if_new (tracker_id data) (handshake_goes net) b)
    as [b1 [[]|e]]; cbn [fst snd] in *.
  - destruct (forward_rotation_effect data now net b1)
      as (rot & bat & Hs' & He' & Hc' & Hl' & Hrot & Hbat & Hok').
    exists hs, rot, bat. rewrite Hs', He', Hc', Hl', Hs, He, Hc, Hl.
    unfold last_battery in *. rewrite Hl in *.
    split; [now rewrite !app_assoc|].
    split; [now rewrite !app_assoc|].
    split; [reflexivity|]. split; [reflexivity|]. split; [exact Hnew|].
    split; [intros Hr; split; [auto|rewrite <- Hc; auto]|].
    split; [exact Hbat|].
    intros Hret. split; [rewrite <- Hc; auto|]. exact (Hok' Hret).
  - exists hs, false, false. rewrite Hs, He, Hc, Hl. cbn.
    rewrite !app_nil_r. repeat split; auto; discriminate.
Qed.

Lemma heartbeat_once_effect (goes : bool) (b : SlimeVRBridge) :
  let b' := fst (beat_once goes b) in
  ((sent b' = sent b /\
    (stderr b' = stderr b \/ stderr b' = stderr b ++ [SendFailed MHeartbeat]))
   \/ (sent b' = sent b ++ [MHeartbeat] /\ stderr b' = stderr b)) /\
  connected_trackers b' = connected_trackers b /\
  last_battery_time b' = last_battery_time b /\
  snd (beat_once goes b) = Ok tt.
Proof.
  cbv zeta.
  unfold beat_once, heartbeat_once, send_to_slimevr, on_protocol, log_error.
  unfold bind, modify.
  destruct (build_heartbeat (protocol b)) as [p [pkt|e]]; cbn.
  - destruct goes; cbn; unfold sent; cbn; rewrite ?map_app; auto 6.
  - auto 6.
Qed.

(** A tick of the main thread either leaves messages, trackers and
    battery times alone, or is a call of the handler on the reading
    decoded from the frame. *)
Lemma poll_once_cases (r : hid_read) (now : Q) (net : network)
    (b : SlimeVRBridge) :
  (sent (fst (poll_once r now net b)) = sent b /\
   (stderr (fst (poll_once r now net b)) = stderr b \/
    stderr (fst (poll_once r now net b)) = stderr b ++ [ReadFailed]) /\
   connected_trackers (fst (poll_once r now net b)) = connected_trackers b /\
   last_battery_time (fst (poll_once r now net b)) = last_battery_time b /\
   forall data parsed, r = ReadReturns data ->
     parse_rf_ultra_packet data <> Ok (Some parsed)) \/
  (exists data parsed b0,
     r = ReadReturns data /\
     parse_rf_ultra_packet data = Ok (Some parsed) /\
     sent b0 = sent b /\
     stderr b0 = stderr b /\
     connected_trackers b0 = connected_trackers b /\
     last_battery_time b0 = last_battery_time b /\
     protocol b0 = protocol b /\
     poll_once r now net b = handle_tracker_data parsed now net b0).
Proof.
  unfold poll_once, hid, log_error. unfold bind, modify, ret.
  destruct r as [|data]; cbn [fst snd].
  - left. repeat split; auto; discriminate.
  - destruct data as [|b0 data'].
    + left. repeat split; auto. intros data parsed [= <-]. discriminate.
    + destruct (parse_rf_ultra_packet (b0 :: data')) as [[parsed|]|e] eqn:E.
      * right.
        exists (b0 :: data'), parsed, (set_hid_log (hid_log b ++ [HidRead]) b).
        repeat split; try reflexivity. exact E.
      * left. repeat split; auto. intros data parsed [= <-]. congruence.
      * left. repeat split; auto. intros data parsed [= <-]. congruence.
Qed.

(** *** Order of the messages *)

Lemma snoc_split {A} (ms pre post : list A) (m x : A) :
  ms ++ [m] = pre ++ x :: post ->
  (post = [] /\ pre = ms /\ x = m) \/
  (exists post', post = post' ++ [m] /\ ms = pre ++ x :: post').
Proof.
  destruct post as [|y post' _] using rev_ind; intros E.
  - apply app_inj_tail in E as [-> ->]. auto.
  - right. exists post'.
    change (pre ++ x :: post' ++ [y]) with (pre ++ (x :: post') ++ [y]) in E.
    rewrite app_assoc in E. apply app_inj_tail in E as [-> ->]. auto.
Qed.

Lemma handshake_first_snoc (ms : list message) (err : list diag)
    (m : message) :
  handshake_first_unless_lost ms err ->
  (forall t, needs_handshake m t -> greeted ms err t) ->
  handshake_first_unless_lost (ms ++ [m]) err.
Proof.
  intros Hms Hm pre x post t E Hx.
  apply snoc_split in E as [(-> & -> & ->)|(post' & -> & ->)].
  - now apply Hm.
  - now apply (Hms pre x post' t).
Qed.

Lemma handshake_first_more_lines (ms : list message) (err : list diag)
    (d : diag) :
  handshake_first_unless_lost ms err ->
  handshake_first_unless_lost ms (err ++ [d]).
Proof.
  intros Hms pre x post t E Hx.
  destruct (Hms pre x post t E Hx) as [H|H]; [now left|].
  right. apply in_or_app. now left.
Qed.

Lemma handshake_once_snoc (ms : list message) (m : message) :
  handshake_once ms ->
  (forall t, m = MHandshake t -> ~ In (MHandshake t) ms) ->
  handshake_once (ms ++ [m]).
Proof.
  intros Hms Hm pre post t E.
  apply snoc_split in E as [(-> & -> & E)|(post' & -> & ->)].
  - split; [|intros []]. now apply Hm.
  - destruct (Hms pre post' t eq_refl) as [Hpre Hpost].
    split; [exact Hpre|]. intros Hin.
    apply in_app_or in Hin as [Hin|[E|[]]]; [now apply Hpost|].
    apply (Hm t E). apply in_or_app. right. now left.
Qed.

(** Without a lost handshake, the exception of
    [handshake_first_unless_lost] never applies. *)
Lemma handshake_first_none_lost (ms : list message) (err : list diag) :
  handshake_first_unless_lost ms err ->
  (forall t, ~ In (SendFailed (MHandshake t)) err) ->
  handshake_first ms.
Proof.
  intros Hms Hno pre m post t E Hm.
  destruct (Hms pre m post t E Hm) as [H|H]; [exact H|].
  now destruct (Hno t).
Qed.

Lemma coherent_nil : coherent ∅ [] [].
Proof.
  split; [|split; [|split]].
  - intros t. split; [set_solver|intros [[]|[]]].
  - intros [|? ?] ? ? ? E; discriminate.
  - intros [|? ?] ? ? E; discriminate.
  - intros t [].
Qed.

Lemma coherent_handshake (c : gset Z) (ms : list message) (err : list diag)
    (t : Z) :
  t ∉ c -> coherent c ms err ->
  coherent ({[t]} ∪ c) (ms ++ [MHandshake t]) err.
Proof.
  intros Hnew (Hc & Hf & Ho & Hx). split; [|split; [|split]].
  - intros t'. unfold greeted. rewrite in_app_iff. split.
    + intros H. apply elem_of_union in H as [H|H].
      * apply elem_of_singleton in H as ->. left. right. now left.
      * apply Hc in H as [H|H]; auto.
    + intros [[H|[[= ->]|[]]]|H]; [|set_solver|].
      * apply elem_of_union_r. apply Hc. now left.
      * apply elem_of_union_r. apply Hc. now right.
  - apply handshake_first_snoc; [exact Hf|].
    intros t' [E|E]; discriminate.
  - apply handshake_once_snoc; [exact Ho|].
    intros t' [= <-] Hin. apply Hnew, Hc. now left.
  - intros t' Hlost Hin. apply in_app_or in Hin as [Hin|[[= ->]|[]]].
    + now apply (Hx t').
    + apply Hnew, Hc. now right.
Qed.

(** The handshake of a new tracker is lost: the tracker is entered all
    the same, and what is sent for it from then on has no handshake
    before it. *)
Lemma coherent_lost (c : gset Z) (ms : list message) (err : list diag)
    (t : Z) :
  t ∉ c -> coherent c ms err ->
  coherent ({[t]} ∪ c) ms (err ++ [SendFailed (MHandshake t)]).
Proof.
  intros Hnew (Hc & Hf & Ho & Hx). split; [|split; [|split]].
  - intros t'. unfold greeted. rewrite in_app_iff. split.
    + intros H. apply elem_of_union in H as [H|H].
      * apply elem_of_singleton in H as ->. right. right. now left.
      * apply Hc in H as [H|H]; auto.
    + intros [H|[H|[[= ->]|[]]]]; [| |set_solver].
      * apply elem_of_union_r. apply Hc. now left.
      * apply elem_of_union_r. apply Hc. now right.
  - now apply handshake_first_more_lines.
  - exact Ho.
  - intros t' Hlost Hin. apply in_app_or in Hlost as [Hlost|[[= ->]|[]]].
    + now apply (Hx t').
    + apply Hnew, Hc. now left.
Qed.

Lemma coherent_data (c : gset Z) (ms : list message) (err : list diag)
    (m : message) (t : Z) :
  t ∈ c -> needs_handshake m t -> coherent c ms err ->
  coherent c (ms ++ [m]) err.
Proof.
  intros Hin Hm (Hc & Hf & Ho & Hx). split; [|split; [|split]].
  - intros t'. rewrite Hc. unfold greeted. rewrite in_app_iff. cbn.
    split; [tauto|].
    intros [[H|[E|[]]]|H]; auto. destruct Hm; congruence.
  - apply handshake_first_snoc; [exact Hf|].
    intros t' Hm'. apply Hc.
    destruct Hm, Hm'; congruence.
  - apply handshake_once_snoc; [exact Ho|].
    intros t' E. destruct Hm; congruence.
  - intros t' Hlost Hin'. apply in_app_or in Hin' as [Hin'|[E|[]]].
    + now apply (Hx t').
    + destruct Hm; congruence.
Qed.

(** An error line that is not about a handshake. *)
Lemma coherent_line (c : gset Z) (ms : list message) (err : list diag)
    (d : diag) :
  (forall t, d <> SendFailed (MHandshake t)) -> coherent c ms err ->
  coherent c ms (err ++ [d]).
Proof.
  intros Hd (Hc & Hf & Ho & Hx). split; [|split; [|split]].
  - intros t'. rewrite Hc. unfold greeted. rewrite in_app_iff. cbn.
    split; [tauto|].
    intros [H|[H|[E|[]]]]; auto. now destruct (Hd t').
  - now apply handshake_first_more_lines.
  - exact Ho.
  - intros t' Hlost Hin. apply in_app_or in Hlost as [Hlost|[E|[]]].
    + now apply (Hx t').
    + now destruct (Hd t').
Qed.

Lemma coherent_heartbeat (c : gset Z) (ms : list message) (err : list diag) :
  coherent c ms err -> coherent c (ms ++ [MHeartbeat]) err.
Proof.
  intros (Hc & Hf & Ho & Hx). split; [|split; [|split]].
  - intros t'. rewrite Hc. unfold greeted. rewrite in_app_iff. cbn.
    split; [tauto|].
    intros [[H|[E|[]]]|H]; auto. discriminate.
  - apply handshake_first_snoc; [exact Hf|].
    intros t' [E|E]; discriminate.
  - apply handshake_once_snoc; [exact Ho|]. discriminate.
  - intros t' Hlost Hin. apply in_app_or in Hin as [Hin|[E|[]]].
    + now apply (Hx t').
    + discriminate.
Qed.

(** The send of a handshake, when the handler gets to it. *)
Lemma coherent_send_handshake (c : gset Z) (ms : list message)
    (err : list diag) (hs goes : bool) (t : Z) :
  (hs = true -> t ∉ c) -> coherent c ms err ->
  coherent (if hs then {[t]} ∪ c else c)
           (ms ++ delivered hs goes (MHandshake t))
           (err ++ lost hs goes (MHandshake t)).
Proof.
  intros Hnew Hco. destruct hs; cbn; [|now rewrite !app_nil_r].
  destruct goes; cbn; rewrite ?app_nil_r.
  - apply coherent_handshake; auto.
  - apply coherent_lost; auto.
Qed.

(** The send of an orientation or battery message, when the handler
    gets to it. *)
Lemma coherent_send_data (c : gset Z) (ms : list message) (err : list diag)
    (attempt goes : bool) (m : message) (t : Z) :
  (attempt = true -> t ∈ c) -> needs_handshake m t -> coherent c ms err ->
  coherent c (ms ++ delivered attempt goes m) (err ++ lost attempt goes m).
Proof.
  intros Hin Hm Hco. destruct attempt; cbn; [|now rewrite !app_nil_r].
  destruct goes; cbn; rewrite ?app_nil_r.
  - apply (coherent_data _ _ _ _ t); auto.
  - apply coherent_line; [|exact Hco].
    intros t' [= E]. destruct Hm; congruence.
Qed.

(** The handler keeps the messages in order, whatever it is given,
    whatever becomes of its sends and however it ends. *)
Lemma handle_coherent (data : reading) (now : Q) (net : network)
    (b : SlimeVRBridge) :
  coherent (connected_trackers b) (sent b) (stderr b) ->
  let b' := fst (handle_tracker_data data now net b) in
  coherent (connected_trackers b') (sent b') (stderr b').
Proof.
  intros Hb. cbv zeta.
  destruct (handle_effect data now net b)
    as (hs & rot & bat & Hs & He & Hc & _ & Hnew & Hrot & Hbat & _).
  rewrite Hs, He. rewrite Hc in *. clear Hs He Hc.
  apply (coherent_send_data _ _ _ _ _ _ (tracker_id data));
    [intros Hb'; destruct (Hbat Hb') as [-> _]; now apply Hrot|now right|].
  apply (coherent_send_data _ _ _ _ _ _ (tracker_id data));
    [intros Hr; now apply Hrot|now left|].
  now apply coherent_send_handshake.
Qed.

Lemma poll_once_coherent (r : hid_read) (now : Q) (net : network)
    (b : SlimeVRBridge) :
  coherent (connected_trackers b) (sent b) (stderr b) ->
  let b' := fst (poll_once r now net b) in
  coherent (connected_trackers b') (sent b') (stderr b').
Proof.
  intros Hb. cbv zeta.
  destruct (poll_once_cases r now net b)
    as [(Hs & He & Hc & _)
       |(data & parsed & b0 & _ & _ & Hs & He & Hc & _ & _ & ->)].
  - rewrite Hs, Hc. destruct He as [-> | ->]; [exact Hb|].
    apply coherent_line; [discriminate|exact Hb].
  - apply handle_coherent. now rewrite Hs, He, Hc.
Qed.

Lemma beat_once_coherent (goes : bool) (b : SlimeVRBridge) :
  coherent (connected_trackers b) (sent b) (stderr b) ->
  let b' := fst (beat_once goes b) in
  coherent (connected_trackers b') (sent b') (stderr b').
Proof.
  intros Hb. cbv zeta.
  destruct (heartbeat_once_effect goes b)
    as ([[Hs [He|He]]|[Hs He]] & Hc & _); rewrite Hs, He, Hc.
  - exact Hb.
  - apply coherent_line; [discriminate|exact Hb].
  - now apply coherent_heartbeat.
Qed.

Lemma main_loop_cons (k : tick) (rest : list tick) (b : SlimeVRBridge) :
  main_loop (k :: rest) b
  = match tick_step k b with
    | (b1, Ok _) => main_loop rest b1
    | (b1, Raise e) => (b1, Raise e)
    end.
Proof. destruct k; reflexivity. Qed.

Lemma main_loop_coherent (sched : list tick) (b : SlimeVRBridge) :
  coherent (connected_trackers b) (sent b) (stderr b) ->
  let b' := fst (main_loop sched b) in
  coherent (connected_trackers b') (sent b') (stderr b').
Proof.
  revert b. induction sched as [|k rest IH]; intros b Hb; [exact Hb|].
  cbv zeta. rewrite main_loop_cons.
  destruct k as [r now net|goes]; cbn [tick_step].
  - pose proof (poll_once_coherent r now net b Hb) as H1. cbv zeta in H1.
    destruct (poll_once r now net b) as [b1 [[]|e]]; [now apply IH|exact H1].
  - pose proof (beat_once_coherent goes b Hb) as H1. cbv zeta in H1.
    destruct (beat_once goes b) as [b1 [[]|e]]; [now apply IH|exact H1].
Qed.

Lemma poll_once_connected (r : hid_read) (now : Q) (net : network)
    (b : SlimeVRBridge) :
  connected_trackers b ⊆ connected_trackers (fst (poll_once r now net b)) /\
  (snd (poll_once r now net b) = Ok tt ->
   forall data parsed,
     r = ReadReturns data -> parse_rf_ultra_packet data = Ok (Some parsed) ->
     tracker_id parsed ∈ connected_trackers (fst (poll_once r now net b))).
Proof.
  destruct (poll_once_cases r now net b)
    as [(_ & _ & Hc & _ & Hno)
       |(data & parsed & b0 & -> & E & _ & _ & Hc & _ & _ & ->)].
  - rewrite Hc. split; [reflexivity|].
    intros _ data parsed Hr Hp. now destruct (Hno data parsed Hr).
  - destruct (handle_effect parsed now net b0)
      as (hs & rot & bat & _ & _ & Hc' & _ & _ & _ & _ & Hok).
    split.
    + rewrite Hc', Hc. destruct hs; set_solver.
    + intros Hret data' parsed' [= <-] E'. rewrite E in E'.
      injection E' as <-. now apply Hok.
Qed.

Lemma main_loop_connected (sched : list tick) (b : SlimeVRBridge) :
  connected_trackers b ⊆ connected_trackers (fst (main_loop sched b)) /\
  (snd (main_loop sched b) = Ok tt ->
   forall t, In t (trackers_polled sched) ->
             t ∈ connected_trackers (fst (main_loop sched b))).
Proof.
  revert b. induction sched as [|k rest IH]; intros b.
  { split; [reflexivity|]. intros _ t []. }
  rewrite main_loop_cons. destruct k as [r now net|goes]; cbn [tick_step].
  - destruct (poll_once_connected r now net b) as [Hsub Hin].
    destruct (poll_once r now net b) as [b1 [[]|e]]; cbn [fst snd] in *.
    + destruct (IH b1) as [Hsub' Hin']. split; [set_solver|].
      intros Hret t Ht. cbn [trackers_polled] in Ht.
      destruct r as [|data]; [now apply Hin'|].
      destruct (parse_rf_ultra_packet data) as [[parsed|]|e'] eqn:E;
        try now apply Hin'.
      destruct Ht as [<-|Ht]; [|now apply Hin'].
      apply Hsub'. now apply (Hin eq_refl data).
    + split; [exact Hsub|discriminate].
  - destruct (heartbeat_once_effect goes b) as (_ & Hc & _ & Hret).
    destruct (beat_once goes b) as [b1 [[]|e]]; cbn [fst snd] in *;
      [|discriminate].
    destruct (IH b1) as [Hsub' Hin']. rewrite <- Hc. split; [exact Hsub'|].
    intros Hr t Ht. now apply Hin'.
Qed.

(** *** The whole run *)

(** When the device opens, [run()] is its loop between two pieces of
    housekeeping that touch neither the messages, nor the error lines,
    nor the trackers, nor the battery times. *)
Lemma run_opens (sched : list tick) (b : SlimeVRBridge) :
  let out := main_loop sched (loop_entry b) in
  let b' := fst (run true sched b) in
  sent b' = sent (fst out) /\
  stderr b' = stderr (fst out) /\
  connected_trackers b' = connected_trackers (fst out) /\
  last_battery_time b' = last_battery_time (fst out) /\
  snd (run true sched b) = snd out.
Proof.
  cbv zeta. unfold run, connect, finally, disconnect, hid, log_error.
  unfold bind, gets, modify, ret. cbn [fst snd].
  change (set_running true
            (set_hid_log (hid_log (set_hid_device true b) ++ [HidOpen])
               (set_hid_device true b)))
    with (loop_entry b).
  destruct (main_loop sched (loop_entry b)) as [b1 r]. cbn [fst snd].
  destruct (hid_device (set_running false b1)); cbn [fst snd]; auto 6.
Qed.

Lemma run_fails (sched : list tick) (b : SlimeVRBridge) :
  run false sched b
  = (set_stderr (stderr b ++ [ConnectFailed; CannotConnect])
       (set_hid_log (hid_log b ++ [HidOpen]) (set_hid_device true b)),
     Ok tt).
Proof.
  unfold run, connect, hid, log_error. unfold bind, modify, ret.
  cbn. now rewrite <- app_assoc.
Qed.

(** Either [main()] never gets to the loop of [run()], and nothing is
    sent, or it is that loop, as far as messages, error lines and
    trackers go. *)
Lemma main_cases (w : world) :
  ((list_devices w = true \/ device_found w = false \/
    device_opens w = false) /\
   sent (fst (main w)) = []) \/
  (list_devices w = false /\ device_found w = true /\ device_opens w = true /\
   let out := main_loop (schedule w) (loop_entry new_bridge) in
   sent (fst (main w)) = sent (fst out) /\
   stderr (fst (main w)) = stderr (fst out) /\
   connected_trackers (fst (main w)) = connected_trackers (fst out) /\
   last_battery_time (fst (main w)) = last_battery_time (fst out) /\
   (snd (main w) = 0 -> snd out = Ok tt)).
Proof.
  unfold main.
  destruct (list_devices w); [left; auto|].
  destruct (device_found w); cbn [negb]; [|left; auto].
  destruct (device_opens w) eqn:Ho.
  - right. repeat split; try reflexivity; cbv zeta;
      destruct (run_opens (schedule w) new_bridge)
        as (Hs & He & Hc & Hl & Hr);
      destruct (run true (schedule w) new_bridge) as [b [[]|e]];
      cbn [fst snd] in *; auto.
    discriminate.
  - left. rewrite run_fails. auto.
Qed.

(** The first frame of a tracker arrives while the socket refuses the
    datagram: the handshake is lost, the tracker is entered all the
    same, and the orientation and battery packets of this frame and
    the orientation packet of the next go out with no handshake before
    them. No handshake for the tracker is ever sent. *)
Lemma lost_handshake_never_resent :
  let b := fst (main lossy_world) in
  sent b = [MRotation 0; MBattery 0; MRotation 0] /\
  stderr b = [SendFailed (MHandshake 0)] /\
  0 ∈ connected_trackers b /\
  snd (main lossy_world) = 0 /\
  ~ handshake_first (sent b).
Proof.
  cbv zeta.
  assert (E : sent (fst (main lossy_world))
              = [MRotation 0; MBattery 0; MRotation 0])
    by (vm_compute; reflexivity).
  split; [exact E|]. split; [vm_compute; reflexivity|].
  split; [vm_compute; set_solver|]. split; [vm_compute; reflexivity|].
  rewrite E. intros H.
  destruct (H [] (MRotation 0) [MBattery 0; MRotation 0] 0 eq_refl
              (or_introl eq_refl)).
Qed.

(** C2. In every run of the bridge, whatever frames arrive, however
    the heartbeats fall between them and whichever sends fail: no
    tracker id gets a second handshake, and a handshake whose send
    failed is not sent later; every orientation or battery message sent
    for a tracker id is preceded by a handshake sent for that id,
    unless the send of that handshake failed, which the error stream
    then shows; so when no handshake is lost, every such message
    follows its handshake. When the run ends without an exception,
    every tracker id whose reading was handled had its handshake handed
    to the socket: it was sent, or the error stream has its failure. *)
Theorem handshake_before_data (w : world) :
  let b := fst (main w) in
  handshake_once (sent b) /\
  never_resent (sent b) (stderr b) /\
  handshake_first_unless_lost (sent b) (stderr b) /\
  ((forall t, ~ In (SendFailed (MHandshake t)) (stderr b)) ->
   handshake_first (sent b)) /\
  (list_devices w = false -> device_found w = true ->
   device_opens w = true -> snd (main w) = 0 ->
   forall t, In t (trackers_polled (schedule w)) ->
             In (MHandshake t) (sent b) \/
             In (SendFailed (MHandshake t)) (stderr b)).
Proof.
  cbv zeta.
  assert (Hnew : coherent (connected_trackers (loop_entry new_bridge))
                          (sent (loop_entry new_bridge))
                          (stderr (loop_entry new_bridge)))
    by apply coherent_nil.
  pose proof (main_loop_coherent (schedule w) _ Hnew) as Hco.
  cbv zeta in Hco.
  destruct (main_cases w)
    as [[Hno Hs]|(Hl & Hf & Ho & Hs & He & Hc & _ & Hr)].
  - rewrite Hs. split; [intros [|? ?] ? ? E; discriminate|].
    split; [intros t _ []|].
    split; [intros [|? ?] ? ? ? E; discriminate|].
    split; [intros _ [|? ?] ? ? ? E; discriminate|].
    intros Hl Hf Ho. destruct Hno as [H|[H|H]]; congruence.
  - rewrite Hs, He. destruct Hco as (Hiff & H1 & H2 & H3).
    split; [exact H2|]. split; [exact H3|]. split; [exact H1|].
    split; [now apply handshake_first_none_lost|].
    intros _ _ _ Hz t Ht. apply Hiff.
    exact (proj2 (main_loop_connected (schedule w) (loop_entry new_bridge))
             (Hr Hz) t Ht).
Qed.

Lemma handshake_before_data_witness :
  handshake_first (sent (fst (main example_world))) /\
  (In (MHandshake 5) (sent (fst (main example_world))) \/
   In (SendFailed (MHandshake 5)) (stderr (fst (main example_world)))).
Proof.
  split.
  - apply (proj1 (proj2 (proj2 (proj2
             (handshake_before_data example_world))))).
    vm_compute. intros t [H|[]]. discriminate.
  - apply (proj2 (proj2 (proj2 (proj2
             (handshake_before_data example_world)))));
      try reflexivity.
    vm_compute. tauto.
Defined.

(** *** Battery messages *)

Lemma battery_due_iff (now last : Q) :
  battery_due now last = true <-> (5 < now - last)%Q.
Proof.
  unfold battery_due. rewrite negb_true_iff.
  destruct (Qle_bool (now - last) 5) eqn:E.
  - apply Qle_bool_iff in E. split; [discriminate|]. intros H.
    now apply Qlt_not_le in H.
  - split; [intros _|reflexivity]. apply Qnot_le_lt. intros H.
    apply Qle_bool_iff in H. congruence.
Qed.

Lemma batteries_app (t : Z) (l1 l2 : list message) :
  batteries t (l1 ++ l2) = (batteries t l1 + batteries t l2)%nat.
Proof. apply count_occ_app. Qed.

Lemma batteries_one (t : Z) (m : message) :
  batteries t [m] = if decide (m = MBattery t) then 1%nat else 0%nat.
Proof.
  unfold batteries. cbn [count_occ].
  destruct (message_eq_dec m (MBattery t)), (decide (m = MBattery t));
    congruence.
Qed.

Lemma batteries_delivered (t : Z) (attempt goes : bool) (m : message) :
  m <> MBattery t -> batteries t (delivered attempt goes m) = 0%nat.
Proof.
  intros Hm. unfold delivered.
  destruct (attempt && goes); [|reflexivity].
  now rewrite batteries_one, decide_False.
Qed.

(** A call of the handler, seen from tracker [t]: either it sends no
    battery message for [t], and the time kept for [t] is not set
    back; or it sends one, on an orientation reading of [t], the clock
    being more than 5 seconds past the time kept, and keeps the clock
    reading for [t]. *)
Lemma handle_batteries (data : reading) (now : Q) (net : network)
    (b : SlimeVRBridge) (t : Z) :
  let b' := fst (handle_tracker_data data now net b) in
  (batteries t (sent b') = batteries t (sent b) /\
   (last_sent t b <= last_sent t b')%Q) \/
  (batteries t (sent b') = S (batteries t (sent b)) /\
   tracker_id data = t /\ is_rotation data = true /\
   last_battery_time b' !! t = Some now /\
   last_sent t b' = now /\
   (5 < now - last_sent t b)%Q).
Proof.
  cbv zeta.
  destruct (handle_effect data now net b)
    as (hs & rot & bat & Hs & _ & Hc & Hl & Hnew & Hrot & Hbat & _).
  cbv zeta in *. unfold last_sent, last_battery.
  rewrite Hs, Hc, Hl, !batteries_app.
  rewrite (batteries_delivered t hs) by discriminate.
  rewrite (batteries_delivered t rot) by discriminate.
  rewrite !Nat.add_0_r. clear Hs.
  destruct (decide (tracker_id data = t)) as [<-|Hne].
  - destruct bat.
    + destruct (Hbat eq_refl) as [-> Hdue].
      destruct (Hrot eq_refl) as [Hr Hin]. rewrite Hc in Hin.
      assert (Hdue' : (5 < now - (if decide (tracker_id data
                                             ∈ connected_trackers b)
                                  then default 0%Q
                                         (last_battery_time b
                                            !! tracker_id data)
                                  else 0))%Q).
      { apply battery_due_iff. destruct hs.
        - rewrite decide_False by auto. now rewrite lookup_insert_eq in Hdue.
        - now rewrite decide_True by exact Hin. }
      assert (Enow : (if decide (tracker_id data
                                 ∈ (if hs
                                    then {[tracker_id data]}
                                         ∪ connected_trackers b
                                    else connected_trackers b))
                      then default 0%Q
                             (<[tracker_id data := now]>
                                (if hs
                                 then <[tracker_id data := 0%Q]>
                                        (last_battery_time b)
                                 else last_battery_time b)
                              !! tracker_id data)
                      else 0%Q) = now).
      { now rewrite decide_True, lookup_insert_eq by exact Hin. }
      rewrite Enow.
      destruct (battery_goes net); cbn [delivered andb].
      * right. rewrite batteries_one, decide_True by reflexivity.
        split; [lia|]. split; [reflexivity|]. split; [exact Hr|].
        split; [apply lookup_insert_eq|]. split; [reflexivity|].
        exact Hdue'.
      * left. split; [cbn; lia|]. lra.
    + left. cbn [delivered andb]. split; [cbn; lia|]. destruct hs.
      * rewrite decide_False by auto.
        rewrite decide_True by set_solver. rewrite lookup_insert_eq.
        apply Qle_refl.
      * apply Qle_refl.
  - left. split.
    + rewrite batteries_delivered by congruence. lia.
    + assert (Ekept : (if bat
                       then <[tracker_id data := now]>
                              (if hs
                               then <[tracker_id data := 0%Q]> (last_battery_time b)
                               else last_battery_time b)
                       else if hs
                            then <[tracker_id data := 0%Q]> (last_battery_time b)
                            else last_battery_time b) !! t
                      = last_battery_time b !! t).
      { destruct bat, hs; rewrite ?lookup_insert_ne by exact Hne; reflexivity. }
      rewrite Ekept.
      destruct hs; [|apply Qle_refl].
      destruct (decide (t ∈ connected_trackers b)) as [Hin|Hout].
      * rewrite decide_True by set_solver. apply Qle_refl.
      * rewrite decide_False by set_solver. apply Qle_refl.
Qed.

Lemma orientation_times_cons (t : Z) (k : tick) (rest : list tick) :
  orientation_times t (k :: rest)
  = orientation_times t [k] ++ orientation_times t rest.
Proof.
  destruct k as [[|data] now net|goes]; cbn [orientation_times];
    try reflexivity.
  destruct (parse_rf_ultra_packet data) as [[[t' ? ? ?| |]|]|];
    try reflexivity.
  destruct (decide (t' = t)); reflexivity.
Qed.

(** A tick, seen from tracker [t]. *)
Lemma tick_batteries (k : tick) (b : SlimeVRBridge) (t : Z) :
  let b' := fst (tick_step k b) in
  (batteries t (sent b') = batteries t (sent b) /\
   (last_sent t b <= last_sent t b')%Q) \/
  (batteries t (sent b') = S (batteries t (sent b)) /\
   orientation_times t [k] = [clock k] /\
   last_sent t b' = clock k /\
   (5 < clock k - last_sent t b)%Q).
Proof.
  cbv zeta. destruct k as [r now net|goes]; cbn [tick_step clock].
  - destruct (poll_once_cases r now net b)
      as [(Hs & _ & Hc & Hl & _)
         |(data & parsed & b0 & -> & E & Hs & _ & Hc & Hl & _ & ->)].
    { left. unfold last_sent, last_battery. rewrite Hs, Hc, Hl.
      split; [reflexivity|apply Qle_refl]. }
    assert (Ek : last_sent t b0 = last_sent t b).
    { unfold last_sent, last_battery. now rewrite Hc, Hl. }
    destruct (handle_batteries parsed now net b0 t)
      as [[Hn Hk]|(Hn & Ht & Hr & _ & Hnow & Hdue)].
    + left. rewrite Hn, Hs, <- Ek. auto.
    + right. rewrite Hn, Hs, <- Ek. split; [reflexivity|].
      split; [|auto].
      cbn [orientation_times]. rewrite E.
      destruct parsed as [t' ? ? ?| |]; try discriminate.
      cbn [tracker_id] in Ht. now rewrite decide_True by exact Ht.
  - destruct (heartbeat_once_effect goes b) as (Hs & Hc & Hl & _).
    left. unfold last_sent, last_battery. rewrite Hc, Hl.
    split; [|apply Qle_refl].
    destruct Hs as [[-> _]|[-> _]]; [reflexivity|].
    rewrite batteries_app, batteries_one, decide_False by discriminate. lia.
Qed.

(** Once the time kept for [t] is within the window, no battery
    message for [t] goes out. *)
Lemma main_loop_quiet (sched : list tick) (b : SlimeVRBridge) (t : Z) (a : Q) :
  (a <= last_sent t b)%Q ->
  Forall (window a) (orientation_times t sched) ->
  batteries t (sent (fst (main_loop sched b))) = batteries t (sent b).
Proof.
  revert b. induction sched as [|k rest IH]; intros b Ha Hw; [reflexivity|].
  rewrite orientation_times_cons in Hw. apply Forall_app in Hw as [Hk Hrest].
  rewrite main_loop_cons.
  destruct (tick_batteries k b t) as [[Hn Hkeep]|(_ & Ek & _ & Hdue)].
  - destruct (tick_step k b) as [b1 [[]|e]]; cbn [fst snd] in *;
      [|exact Hn].
    rewrite <- Hn. apply IH; [lra|exact Hrest].
  - exfalso. rewrite Ek in Hk. apply Forall_cons_iff in Hk as [[_ Hle] _].
    lra.
Qed.

Lemma main_loop_batteries (sched : list tick) (b : SlimeVRBridge) (t : Z)
    (a : Q) :
  Forall (window a) (orientation_times t sched) ->
  (batteries t (sent (fst (main_loop sched b)))
   <= batteries t (sent b) + 1)%nat.
Proof.
  revert b. induction sched as [|k rest IH]; intros b Hw; [cbn; lia|].
  rewrite orientation_times_cons in Hw. apply Forall_app in Hw as [Hk Hrest].
  rewrite main_loop_cons.
  destruct (tick_batteries k b t) as [[Hn _]|(Hn & Ek & Hnow & _)].
  - destruct (tick_step k b) as [b1 [[]|e]]; cbn [fst snd] in *; [|lia].
    rewrite <- Hn. now apply IH.
  - rewrite Ek in Hk. apply Forall_cons_iff in Hk as [[Hge _] _].
    destruct (tick_step k b) as [b1 [[]|e]]; cbn [fst snd] in *; [|lia].
    rewrite (main_loop_quiet rest b1 t a); [lia| |exact Hrest].
    now rewrite Hnow.
Qed.

Lemma spaced_earlier (l l' : Q) (times : list Q) :
  (l <= l')%Q -> spaced l' times -> spaced l times.
Proof.
  intros Hl. destruct times as [|x times']; [auto|].
  cbn [spaced]. intros [Hx Hrest]. split; [lra|exact Hrest].
Qed.

(** The battery messages of a run are as many as the ticks counted by
    [battery_times], and these are more than 5 seconds apart. *)
Lemma battery_times_spaced (sched : list tick) (b : SlimeVRBridge) (t : Z) :
  spaced (last_sent t b) (battery_times t sched b) /\
  batteries t (sent (fst (main_loop sched b)))
  = (batteries t (sent b) + length (battery_times t sched b))%nat.
Proof.
  revert b. induction sched as [|k rest IH]; intros b.
  { cbn. split; [exact I|lia]. }
  rewrite main_loop_cons. cbn [battery_times].
  destruct (tick_batteries k b t) as [[Hn Hkeep]|(Hn & _ & Hnow & Hdue)].
  - destruct (tick_step k b) as [b1 [[]|e]]; cbn [fst snd] in *;
      rewrite decide_True by exact Hn; cbn [app].
    + destruct (IH b1) as [Hsp Hlen]. rewrite <- Hn.
      split; [exact (spaced_earlier _ _ _ Hkeep Hsp)|exact Hlen].
    + split; [exact I|cbn; lia].
  - destruct (tick_step k b) as [b1 [[]|e]]; cbn [fst snd] in *;
      rewrite decide_False by lia; cbn [app spaced length].
    + destruct (IH b1) as [Hsp Hlen]. rewrite Hnow in Hsp.
      split; [auto|]. rewrite Hlen, Hn. lia.
    + split; [auto|]. rewrite Hn. lia.
Qed.

(** C9. A call of the handler sends a battery message for a tracker
    only on an orientation reading of that tracker and only when the
    clock is more than 5 seconds past the time kept for it (the time of
    its last battery message; 0 for a tracker just entered), it sends
    one only, and it keeps the clock reading as the new time. So, in
    every run, the battery messages for a tracker go out at clock
    readings each more than 5 seconds after the one before; and in a
    run in which the orientation frames of a tracker all come within
    one 5-second interval, at most one battery message is sent for that
    tracker. All of this holds whichever sends fail: a battery packet
    the socket refuses is not sent, and its time is kept all the
    same. *)
Theorem battery_rate_limited :
  (forall data now net b t,
     let b' := fst (handle_tracker_data data now net b) in
     batteries t (sent b') <> batteries t (sent b) ->
     tracker_id data = t /\ is_rotation data = true /\
     (5 < now - last_sent t b)%Q /\
     last_battery_time b' !! t = Some now /\
     batteries t (sent b') = S (batteries t (sent b))) /\
  (forall sched b t,
     spaced (last_sent t b) (battery_times t sched b) /\
     batteries t (sent (fst (main_loop sched b)))
     = (batteries t (sent b) + length (battery_times t sched b))%nat) /\
  (forall w t a,
     Forall (window a) (orientation_times t (schedule w)) ->
     (batteries t (sent (fst (main w))) <= 1)%nat).
Proof.
  split; [|split].
  - intros data now net b t b' Hne. subst b'.
    destruct (handle_batteries data now net b t)
      as [[Hn _]|(Hn & Ht & Hr & Hl & _ & Hdue)]; [contradiction|].
    auto.
  - intros sched b t. apply battery_times_spaced.
  - intros w t a Hw.
    destruct (main_cases w) as [[_ Hs]|(_ & _ & _ & Hs & _)].
    + rewrite Hs. cbn. lia.
    + rewrite Hs.
      apply (main_loop_batteries (schedule w) (loop_entry new_bridge) t a Hw).
Qed.

Lemma battery_rate_limited_witness :
  (5 < 100 - last_sent 3 new_bridge)%Q /\
  (batteries 0 (sent (fst (main
     {| list_devices := false; device_found := true; device_opens := true;
        schedule := [Poll (ReadReturns example_frame) 100 all_go; Beat true;
                     Poll (ReadReturns example_frame) 102 all_go;
                     Poll (ReadReturns example_frame) 105 all_go] |})))
   <= 1)%nat.
Proof.
  split.
  - apply (proj1 battery_rate_limited
             (Rotation 3 example_quat (PyFloat.of_Z 0) 60) 100%Q all_go
             new_bridge 3).
    vm_compute. discriminate.
  - apply (proj2 (proj2 battery_rate_limited) _ 0 100%Q).
    vm_compute. repeat constructor; discriminate.
Defined.

(** *** Device-info and status readings *)

Lemma parse_tracker_id_range (frame : list byte) (data : reading) :
  parse_rf_ultra_packet frame = Ok (Some data) -> 0 <= tracker_id data < 64.
Proof.
  intros E.
  destruct (Nat.lt_ge_cases (length frame) 12) as [Hs|Hlen].
  { rewrite (parse_short frame Hs) in E. discriminate. }
  destruct (index_ok frame 0 ltac:(lia)) as (b0 & _ & H0).
  destruct (parse_header frame b0 data H0 E) as [_ ->].
  apply tracker_id_of_range.
Qed.

(** The device-info frame of a tracker not seen before arrives while
    the socket refuses the datagram: no packet is sent at all, an error
    line is written, and the tracker is entered, so that no later
    reading of it makes the handler try again. *)
Lemma lost_handshake_sends_nothing :
  parse_rf_ultra_packet info_frame = Ok (Some (DeviceInfo 5)) /\
  let out := handle_tracker_data (DeviceInfo 5) 104 handshake_lost
               new_bridge in
  snd out = Ok tt /\
  wire (fst out) = [] /\
  stderr (fst out) = [SendFailed (MHandshake 5)] /\
  5 ∈ connected_trackers (fst out) /\
  handle_tracker_data (DeviceInfo 5) 105 all_go (fst out) = (fst out, Ok tt).
Proof.
  split; [reflexivity|]. cbv zeta.
  split; [reflexivity|]. split; [reflexivity|]. split; [reflexivity|].
  split; [vm_compute; set_solver|].
  unfold handle_tracker_data, handshake_if_new, bind, gets.
  rewrite bool_decide_eq_true_2 by (vm_compute; set_solver).
  reflexivity.
Qed.

(** C10. For every device-info or status reading the decoder returns,
    and every bridge whose packet id fits its 64-bit field: when the
    tracker id is already known the handler sends nothing and changes
    nothing; when it is not, the handler builds the handshake for that
    id, hands it to the socket once and enters the id: when the socket
    takes it, exactly that one packet is sent; when the socket refuses
    it, no packet is sent and one error line is written. Either way
    the handler returns, and no orientation or battery packet is
    sent. *)
Theorem info_and_status_only_handshake (frame : list byte) (data : reading)
    (now : Q) (net : network) (b : SlimeVRBridge) :
  parse_rf_ultra_packet frame = Ok (Some data) ->
  is_rotation data = false ->
  0 <= packet_id (protocol b) < 2 ^ 64 ->
  let t := tracker_id data in
  (t ∈ connected_trackers b ->
   handle_tracker_data data now net b = (b, Ok tt)) /\
  (t ∉ connected_trackers b ->
   exists b' pkt,
     handle_tracker_data data now net b = (b', Ok tt) /\
     build_handshake t (protocol b) = (increment (protocol b), Ok pkt) /\
     t ∈ connected_trackers b' /\
     (handshake_goes net = true ->
      wire b' = wire b ++ [{| dg_msg := MHandshake t; dg_data := pkt |}] /\
      stderr b' = stderr b) /\
     (handshake_goes net = false ->
      wire b' = wire b /\
      stderr b' = stderr b ++ [SendFailed (MHandshake t)])).
Proof.
  intros E Hrot Hp t.
  pose proof (parse_tracker_id_range frame data E) as Ht. fold t in Ht.
  assert (Ef : forward_rotation data now net = ret tt)
    by (destruct data; [discriminate|reflexivity|reflexivity]).
  rewrite handle_tracker_data_unfold. fold t.
  unfold handshake_if_new, send_to_slimevr, on_protocol, log_error.
  unfold bind, gets, ret, modify. split; intros Hin.
  - rewrite bool_decide_eq_true_2 by exact Hin. now rewrite Ef.
  - rewrite bool_decide_eq_false_2 by exact Hin.
    rewrite (build_handshake_ok t (protocol b)) by lia.
    cbn [fst snd].
    destruct (handshake_goes net); cbn [fst snd]; rewrite Ef; unfold ret;
      (eexists _, _; split; [reflexivity|]; split; [reflexivity|];
       split; [cbn; set_solver|]; split; [intros Hg|intros Hg];
       try discriminate; split; reflexivity).
Qed.

Lemma info_and_status_only_handshake_witness :
  exists b' pkt,
    handle_tracker_data (DeviceInfo 5) 104 all_go new_bridge = (b', Ok tt) /\
    build_handshake 5 (protocol new_bridge)
    = (increment (protocol new_bridge), Ok pkt) /\
    5 ∈ connected_trackers b' /\
    (handshake_goes all_go = true ->
     wire b'
     = wire new_bridge ++ [{| dg_msg := MHandshake 5; dg_data := pkt |}] /\
     stderr b' = stderr new_bridge) /\
    (handshake_goes all_go = false ->
     wire b' = wire new_bridge /\
     stderr b' = stderr new_bridge ++ [SendFailed (MHandshake 5)]).
Proof.
  apply (info_and_status_only_handshake info_frame (DeviceInfo 5) 104 all_go
           new_bridge).
  - reflexivity.
  - reflexivity.
  - simpl. lia.
  - set_solver.
Defined.

(** *** A device that does not open *)

(** C5. When the device is found and does not open, whatever would
    come next: [open] is called once and the loop is never entered, two
    error lines go to sys.stderr, and the process exits with status 0.
    (When no device is found, the exit status is 1.) *)
Theorem connect_failure_exits_with_zero (sched : list tick) :
  let out := main (failing_world sched) in
  hid_log (fst out) = [HidOpen] /\
  wire (fst out) = [] /\
  stderr (fst out) = [ConnectFailed; CannotConnect] /\
  snd out = 0 /\
  snd (main {| list_devices := false; device_found := false;
               device_opens := false; schedule := sched |}) = 1.
Proof. repeat split. Qed.

(** * Further properties *)

(** ** Frame decoder: what it reads and what it returns *)

Lemma slice_firstn {A} (lo hi n : nat) (l : list A) :
  (hi <= n)%nat -> slice lo hi (firstn n l) = slice lo hi l.
Proof.
  intros H. unfold slice.
  rewrite skipn_firstn_comm, firstn_firstn.
  destruct (Nat.le_gt_cases hi lo) as [Hle|Hgt].
  - replace (hi - lo)%nat with 0%nat by lia. reflexivity.
  - now rewrite Nat.min_l by lia.
Qed.

Lemma q15_firstn (data : list byte) (lo hi n : nat) :
  (hi <= n)%nat -> q15 (firstn n data) lo hi = q15 data lo hi.
Proof. intros H. unfold q15. now rewrite slice_firstn. Qed.

(** The decoder on a frame of 12 bytes or more, as a function of its
    first 11 bytes. *)
Lemma parse_firstn (data : list byte) :
  (12 <= length data)%nat ->
  parse_rf_ultra_packet data
  = let d := firstn 11 data in
    let* header := index d 0 in
    let header := Z_of_byte header in
    if pkt_type_of header =? 0 then
      let* qw := q15 d 1 3 in
      let* qx := q15 d 3 5 in
      let* qy := q15 d 5 7 in
      let* qz := q15 d 7 9 in
      let* aux := unpack_H (slice 9 11 d) in
      Ok (Some (Rotation (tracker_id_of header) [qw; qx; qy; qz]
                  (PyFloat.div (PyFloat.of_Z (accel_z_raw_of aux))
                     (PyFloat.of_Z 1000))
                  (battery_pct (battery_code_of aux))))
    else if pkt_type_of header =? 1
         then Ok (Some (DeviceInfo (tracker_id_of header)))
    else if pkt_type_of header =? 2
         then Ok (Some (Status (tracker_id_of header)))
    else Ok None.
Proof.
  intros Hlen. cbv zeta. unfold parse_rf_ultra_packet.
  rewrite (proj2 (Nat.ltb_ge _ _) Hlen).
  rewrite !q15_firstn, slice_firstn by lia.
  assert (E : index (firstn 11 data) 0 = index data 0).
  { unfold index. destruct data; [cbn in Hlen; lia|reflexivity]. }
  now rewrite E.
Qed.

(** X1. The decoder looks at the first 11 bytes of a frame only: two
    frames of 12 bytes or more that agree on them are decoded alike,
    whatever their byte 11 (the CRC of the frame format) and the bytes
    after it. *)
Theorem parse_reads_eleven_bytes (d1 d2 : list byte) :
  (12 <= length d1)%nat -> (12 <= length d2)%nat ->
  firstn 11 d1 = firstn 11 d2 ->
  parse_rf_ultra_packet d1 = parse_rf_ultra_packet d2.
Proof.
  intros H1 H2 E. rewrite (parse_firstn d1 H1), (parse_firstn d2 H2).
  now rewrite E.
Qed.

Lemma parse_reads_eleven_bytes_witness :
  parse_rf_ultra_packet
    (frame_of [5; 255; 127; 0; 128; 0; 0; 0; 0; 255; 0x9f; 0])
  = parse_rf_ultra_packet
      (frame_of [5; 255; 127; 0; 128; 0; 0; 0; 0; 255; 0x9f; 77; 1; 2; 3]).
Proof.
  apply parse_reads_eleven_bytes.
  - simpl. lia.
  - simpl. lia.
  - reflexivity.
Defined.

Lemma le_value_range (bs : list byte) :
  0 <= le_value bs < 2 ^ (8 * Z.of_nat (length bs)).
Proof.
  induction bs as [|b bs IH]; [simpl; lia|].
  rewrite le_value_cons. pose proof (Z_of_byte_range b).
  cbn [length]. rewrite Nat2Z.inj_succ.
  replace (8 * Z.succ (Z.of_nat (length bs)))
    with (8 + 8 * Z.of_nat (length bs)) by lia.
  rewrite Z.pow_add_r by lia. change (2 ^ 8) with 256. lia.
Qed.

Lemma unpack_h_range (bs : list byte) (raw : Z) :
  unpack_h bs = Ok raw -> -32768 <= raw < 32768.
Proof.
  unfold unpack_h, unpack_H.
  destruct (Nat.eqb_spec (length bs) 2) as [E|]; [|discriminate].
  cbn [rbind]. intros [= <-].
  pose proof (le_value_range bs) as H. rewrite E in H.
  change (2 ^ (8 * Z.of_nat 2)) with 65536 in H.
  destruct (Z.ltb_spec (le_value bs) (2 ^ 15)); lia.
Qed.

Lemma accel_z_raw_of_range (aux : Z) : -2048 <= accel_z_raw_of aux <= 2047.
Proof.
  unfold accel_z_raw_of. cbv zeta.
  assert (E : Z.land aux 4095 = aux mod 4096)
    by (apply (Z.land_ones aux 12); lia).
  rewrite E. pose proof (Z.mod_pos_bound aux 4096 ltac:(lia)).
  destruct (Z.gtb_spec (aux mod 4096) 2047); lia.
Qed.

Lemma battery_pct_range (code : Z) :
  0 <= code <= 15 -> 0 <= battery_pct code <= 100.
Proof.
  intros H. unfold battery_pct. split.
  - apply Z.div_pos; lia.
  - apply Z.div_le_upper_bound; lia.
Qed.

(** Where each entry of a rotation reading comes from. *)
Lemma parse_rotation_inv (data : list byte) t quat accel_z battery :
  parse_rf_ultra_packet data = Ok (Some (Rotation t quat accel_z battery)) ->
  exists b0 w x y z aux,
    nth_error data 0 = Some b0 /\
    t = tracker_id_of (Z_of_byte b0) /\
    unpack_h (slice 1 3 data) = Ok w /\
    unpack_h (slice 3 5 data) = Ok x /\
    unpack_h (slice 5 7 data) = Ok y /\
    unpack_h (slice 7 9 data) = Ok z /\
    quat = [q15_value w; q15_value x; q15_value y; q15_value z] /\
    accel_z = PyFloat.div (PyFloat.of_Z (accel_z_raw_of aux))
                (PyFloat.of_Z 1000) /\
    battery = battery_pct (battery_code_of aux).
Proof.
  intros Hr.
  destruct (Nat.lt_ge_cases (length data) 12) as [Hs|Hlen].
  { rewrite (parse_short data Hs) in Hr. discriminate. }
  destruct (index_ok data 0 ltac:(lia)) as (b0 & Hi & H0).
  unfold parse_rf_ultra_packet in Hr.
  rewrite (proj2 (Nat.ltb_ge _ _) Hlen), Hi in Hr. cbn [rbind] in Hr.
  destruct (pkt_type_of (Z_of_byte b0) =? 0).
  - unfold q15 in Hr.
    destruct (unpack_h (slice 1 3 data)) as [w|] eqn:Ew; [|discriminate].
    destruct (unpack_h (slice 3 5 data)) as [x|] eqn:Ex; [|discriminate].
    destruct (unpack_h (slice 5 7 data)) as [y|] eqn:Ey; [|discriminate].
    destruct (unpack_h (slice 7 9 data)) as [z|] eqn:Ez; [|discriminate].
    cbn [rbind] in Hr.
    destruct (unpack_H (slice 9 11 data)) as [aux|]; [|discriminate].
    cbn [rbind] in Hr. injection Hr as <- <- <- <-.
    exists b0, w, x, y, z, aux. repeat split; auto.
  - destruct (pkt_type_of (Z_of_byte b0) =? 1); [discriminate|].
    destruct (pkt_type_of (Z_of_byte b0) =? 2); discriminate.
Qed.

(** X2. Every orientation reading the decoder returns has a tracker
    id from 0 to 63, a battery level from 0 to 100, four quaternion
    components, each a 16-bit signed integer divided by 32768.0, and an
    acceleration that is an integer from -2048 to 2047 divided by
    1000.0. *)
Theorem rotation_fields_in_range (data : list byte) t quat accel_z battery :
  parse_rf_ultra_packet data = Ok (Some (Rotation t quat accel_z battery)) ->
  0 <= t < 64 /\
  0 <= battery <= 100 /\
  (exists w x y z,
     quat = [q15_value w; q15_value x; q15_value y; q15_value z] /\
     Forall (fun raw => -32768 <= raw < 32768) [w; x; y; z]) /\
  (exists r, -2048 <= r <= 2047 /\
     accel_z = PyFloat.div (PyFloat.of_Z r) (PyFloat.of_Z 1000)).
Proof.
  intros Hr.
  destruct (parse_rotation_inv _ _ _ _ _ Hr)
    as (b0 & w & x & y & z & aux & H0 & -> & Hw & Hx & Hy & Hz & -> & -> & ->).
  split; [apply tracker_id_of_range|].
  split; [apply battery_pct_range, battery_code_of_range|].
  split.
  - exists w, x, y, z. split; [reflexivity|].
    repeat constructor; eapply unpack_h_range; eassumption.
  - exists (accel_z_raw_of aux). split; [apply accel_z_raw_of_range|reflexivity].
Qed.

Lemma rotation_fields_in_range_witness :
  0 <= 5 < 64 /\ 0 <= 60 <= 100 /\
  (exists w x y z,
     [q15_value 32767; q15_value (-32768); PyFloat.of_Z 0; PyFloat.of_Z 0]
     = [q15_value w; q15_value x; q15_value y; q15_value z] /\
     Forall (fun raw => -32768 <= raw < 32768) [w; x; y; z]) /\
  (exists r, -2048 <= r <= 2047 /\
     PyFloat.div (PyFloat.of_Z (-1)) (PyFloat.of_Z 1000)
     = PyFloat.div (PyFloat.of_Z r) (PyFloat.of_Z 1000)).
Proof.
  apply (rotation_fields_in_range
           (frame_of [5; 255; 127; 0; 128; 0; 0; 0; 0; 255; 0x9f; 0])).
  vm_compute. reflexivity.
Defined.

(** ** Rotation and battery packets of decoded readings *)

Lemma all_from_spec (p : Z -> bool) (lo : Z) (count : positive) :
  all_from p lo count = true ->
  forall z, lo <= z < lo + Z.pos count -> p z = true.
Proof.
  unfold all_from. rewrite Pos2Nat.inj_iter.
  rewrite <- (positive_nat_Z count).
  generalize (Pos.to_nat count) as n. clear count. intros n.
  set (f := fun st : Z * bool => (fst st + 1, snd st && p (fst st))).
  assert (H : fst (Nat.iter n f (lo, true)) = lo + Z.of_nat n /\
              (snd (Nat.iter n f (lo, true)) = true ->
               forall z, lo <= z < lo + Z.of_nat n -> p z = true)).
  { induction n as [|n [IHf IHs]].
    - cbn. split; [lia|]. intros _ z Hz. lia.
    - rewrite !Nat.iter_succ.
      set (st := Nat.iter n f (lo, true)) in *. unfold f. cbn [fst snd].
      rewrite IHf. split; [lia|].
      intros Hall z Hz. apply andb_true_iff in Hall as [Hacc Hp].
      destruct (Z.eq_dec z (lo + Z.of_nat n)) as [->|Hne]; [exact Hp|].
      apply (IHs Hacc). lia. }
  apply H.
Qed.

Lemma sf_eqb_eq (x y : spec_float) : sf_eqb x y = true -> x = y.
Proof.
  destruct x as [a|a| |a m e], y as [b|b| |b n f]; cbn; try discriminate.
  - intros ->%Bool.eqb_prop. reflexivity.
  - intros ->%Bool.eqb_prop. reflexivity.
  - reflexivity.
  - intros [[->%Bool.eqb_prop ->%Pos.eqb_eq]%andb_true_iff ->%Z.eqb_eq]%andb_true_iff.
    reflexivity.
Qed.

(** Checked on each of the 65536 values. *)
Lemma q15_packs_all : all_from q15_packs (-32768) 65536 = true.
Proof. vm_compute. reflexivity. Qed.

Lemma pack_f_length (x : float) (bs : list byte) :
  pack_f x = Ok bs -> length bs = 4%nat.
Proof.
  unfold pack_f.
  destruct x, (F32.of_double _); intros [= <-]; reflexivity.
Qed.

(** A quaternion component of the decoder goes through binary32
    unchanged. *)
Lemma q15_value_packs (raw : Z) :
  -32768 <= raw < 32768 ->
  exists bs, pack_f (q15_value raw) = Ok bs /\ length bs = 4%nat /\
             unpack_f bs = Ok (q15_value raw).
Proof.
  intros H.
  pose proof (all_from_spec _ _ _ q15_packs_all raw ltac:(lia)) as Hc.
  unfold q15_packs in Hc.
  destruct (pack_f (q15_value raw)) as [bs|] eqn:Ep; [|discriminate].
  exists bs. split; [reflexivity|]. split; [exact (pack_f_length _ _ Ep)|].
  destruct (unpack_f bs) as [y|]; [|discriminate].
  now rewrite (sf_eqb_eq _ _ Hc).
Qed.
